(** * policards: the representative-modification stage ([modify_reps.py])

    A shallow embedding of [src/modify_reps.py]: the dictionary-based
    normalizer [mod_json] and the pandas pipeline
    [update_endyear], [add_tenure], [normalize_name], [only_current].

    Conventions of the embedding.
    - A DataFrame is a list of rows, in index order.  A cell that holds no
      value (NaN, <NA>, or a column that has not been added yet) is [None].
    - Integer columns are [Z].  Years and ranks are far inside the range in
      which int64 and float64 agree with the integers, so no wrap-around or
      rounding is written out.
    - A Python exception is identified by the name of its class; a call that
      may raise returns [result A = exn + A].
    - [date.today()] is an explicit reading of the ambient clock, passed to
      every function whose body consults it. *)

From Stdlib Require Import ZArith String Ascii List Lia.
From stdpp Require Import base option list strings gmap sorting.

Local Open Scope Z_scope.

(** ** Python and pandas primitives used by the module *)
Module Py.

(** An exception, by class name. *)
Inductive exn : Type := Raise (cls : string).

#[global] Instance exn_eq_dec : EqDecision exn.
Proof. solve_decision. Defined.

Definition KeyError : exn := Raise "KeyError".
Definition AttributeError : exn := Raise "AttributeError".
Definition TypeError : exn := Raise "TypeError".
(** pandas: "Cannot convert non-finite values (NA or inf) to integer". *)
Definition IntCastingNaNError : exn := Raise "IntCastingNaNError".

Definition result (A : Type) : Type := exn + A.

Definition ret {A} (a : A) : result A := inr a.
Definition raise {A} (e : exn) : result A := inl e.
Definition bind {A B} (m : result A) (k : A -> result B) : result B :=
  match m with
  | inl e => inl e
  | inr a => k a
  end.

(** A loop over a list whose body may raise: the first exception ends it. *)
Fixpoint mapM {A B} (f : A -> result B) (l : list A) : result (list B) :=
  match l with
  | [] => ret []
  | x :: l' =>
      bind (f x) (fun y => bind (mapM f l') (fun ys => ret (y :: ys)))
  end.

(** [datetime.date]; [date.today()] is a value of this type. *)
Record date : Type := mkDate { year : Z; month : Z; day : Z }.

(** *** Strings *)

(** [str.lower()] on ASCII letters.  Bytes outside A-Z are kept; the two
    chamber names are plain ASCII without the letter k, so no non-ASCII
    character lower-cases into them and the comparison in [mod_json] is
    decided exactly. *)
Definition lower_ascii (c : ascii) : ascii :=
  let n := N_of_ascii c in
  if ((65 <=? n) && (n <=? 90))%N then ascii_of_N (n + 32) else c.

Fixpoint str_lower (s : string) : string :=
  match s with
  | EmptyString => EmptyString
  | String c s' => String (lower_ascii c) (str_lower s')
  end.

(** [s.split(sep)] for a non-empty [sep]: scan left to right; at an
    occurrence of [sep] close the current token and skip the separator.
    [skip] counts the separator characters still to be passed over. *)
Fixpoint split_from (sep : string) (skip : nat) (tok : string) (s : string)
  : list string :=
  match s with
  | EmptyString => [tok]
  | String c s' =>
      match skip with
      | S k => split_from sep k tok s'
      | O =>
          if String.prefix sep s
          then tok :: split_from sep (Nat.pred (String.length sep)) EmptyString s'
          else split_from sep O (String.append tok (String c EmptyString)) s'
      end
  end.

Definition str_split (sep s : string) : list string :=
  split_from sep O EmptyString s.

(** [sep.join(tokens)] *)
Fixpoint str_join (sep : string) (toks : list string) : string :=
  match toks with
  | [] => EmptyString
  | [t] => t
  | t :: ts => String.append t (String.append sep (str_join sep ts))
  end.

(** *** Ranking *)

(** Number of elements in front of the first occurrence of [v]. *)
Fixpoint first_index (v : Z) (l : list Z) : nat :=
  match l with
  | [] => O
  | x :: l' => if decide (x = v) then O else S (first_index v l')
  end.

(** The values of a column, NaN cells dropped ([na_option='keep']). *)
Definition values (col : list (option Z)) : list Z := omap id col.

(** [rank(ascending=False, method='min')] of one cell within a group of
    cells: sort the group's values in descending order; every member of a
    run of equal values receives the 1-based position at which the run
    starts.  A NaN cell keeps NaN. *)
Definition rank_in (group : list (option Z)) (cell : option Z) : option Z :=
  match cell with
  | None => None
  | Some v =>
      Some (1 + Z.of_nat (first_index v (merge_sort Z.ge (values group))))
  end.

(** [Series.rank(ascending=False, method='min')] *)
Definition rank (col : list (option Z)) : list (option Z) :=
  rank_in col <$> col.

(** *** Dictionaries loaded from JSON *)

Inductive pyval : Type :=
| PyInt (z : Z)
| PyStr (s : string)
| PyNone.

#[global] Instance pyval_eq_dec : EqDecision pyval.
Proof. solve_decision. Defined.

(** [d[k]] *)
Definition getitem (d : gmap string pyval) (k : string) : result pyval :=
  match d !! k with
  | Some v => ret v
  | None => raise KeyError
  end.

(** [v.lower()]: only strings have the method. *)
Definition py_lower (v : pyval) : result string :=
  match v with
  | PyStr s => ret (str_lower s)
  | _ => raise AttributeError
  end.

(** [v + n] for an integer literal [n]. *)
Definition py_add_int (v : pyval) (n : Z) : result pyval :=
  match v with
  | PyInt z => ret (PyInt (z + n))
  | _ => raise TypeError
  end.

End Py.

Import Py.

#[global] Instance result_bind : MBind result := fun A B k m => bind m k.
#[global] Instance result_ret : MRet result := @ret.


(** ** The functions of [modify_reps.py] *)
Module ModifyReps.

(** *** [mod_json]: the normalizer over a list of dictionaries *)

(** The body of the loop in [mod_json].  The [elif] evaluates
    [rep['chamber'].lower()] a second time; the expression has no effect,
    so its first value is used again. *)
Definition mod_rep (rep : gmap string pyval) : result (gmap string pyval) :=
  match rep !! "endYear" with
  | Some _ => mret rep
  | None =>
      ch ← getitem rep "chamber";
      c ← py_lower ch;
      if decide (c = str_lower "Senate") then
        sy ← getitem rep "startYear";
        e ← py_add_int sy 6;
        mret (<["endYear" := e]> rep)
      else if decide (c = str_lower "House of Representatives") then
        sy ← getitem rep "startYear";
        e ← py_add_int sy 2;
        mret (<["endYear" := e]> rep)
      else mret rep
  end.

(** The dictionaries are updated in place; the list after the loop is the
    value of the model. *)
Definition mod_json (list_of_dict : list (gmap string pyval))
  : result (list (gmap string pyval)) :=
  mapM mod_rep list_of_dict.

(** *** The DataFrame *)

(** One row per (member, term).  The first block is what
    [flatten_user_terms] writes to [congressmen.json]; [extra] holds the
    columns the module never reads (url, attribution, imageUrl).  The
    second block is added by [update_endyear] and [add_tenure]. *)
Record row : Type := mkRow {
  bioguideID : string;
  name : string;
  partyName : string;
  state : string;
  chamber : string;
  startYear : Z;
  endYear : option Z;
  extra : list (string * string);
  current_member : option string;
  duration : option Z;
  tenure_all_time : option Z;
  tenure_all_time_party : option Z;
  tenure_current : option Z;
  tenure_current_party : option Z;
  party_all_time_count : option Z;
  party_current_count : option Z
}.

#[global] Instance row_eq_dec : EqDecision row.
Proof. solve_decision. Defined.

Abbreviation frame := (list row).

(** Column assignment [df[c] = ...], one setter per assigned column. *)
Definition set_name (r : row) (v : string) : row :=
  mkRow (bioguideID r) v (partyName r) (state r) (chamber r) (startYear r)
    (endYear r) (extra r) (current_member r) (duration r)
    (tenure_all_time r) (tenure_all_time_party r) (tenure_current r)
    (tenure_current_party r) (party_all_time_count r) (party_current_count r).
Definition set_endYear (r : row) (v : option Z) : row :=
  mkRow (bioguideID r) (name r) (partyName r) (state r) (chamber r) (startYear r)
    v (extra r) (current_member r) (duration r)
    (tenure_all_time r) (tenure_all_time_party r) (tenure_current r)
    (tenure_current_party r) (party_all_time_count r) (party_current_count r).
Definition set_current_member (r : row) (v : option string) : row :=
  mkRow (bioguideID r) (name r) (partyName r) (state r) (chamber r) (startYear r)
    (endYear r) (extra r) v (duration r)
    (tenure_all_time r) (tenure_all_time_party r) (tenure_current r)
    (tenure_current_party r) (party_all_time_count r) (party_current_count r).
Definition set_duration (r : row) (v : option Z) : row :=
  mkRow (bioguideID r) (name r) (partyName r) (state r) (chamber r) (startYear r)
    (endYear r) (extra r) (current_member r) v
    (tenure_all_time r) (tenure_all_time_party r) (tenure_current r)
    (tenure_current_party r) (party_all_time_count r) (party_current_count r).
Definition set_tenure_all_time (r : row) (v : option Z) : row :=
  mkRow (bioguideID r) (name r) (partyName r) (state r) (chamber r) (startYear r)
    (endYear r) (extra r) (current_member r) (duration r)
    v (tenure_all_time_party r) (tenure_current r)
    (tenure_current_party r) (party_all_time_count r) (party_current_count r).
Definition set_tenure_all_time_party (r : row) (v : option Z) : row :=
  mkRow (bioguideID r) (name r) (partyName r) (state r) (chamber r) (startYear r)
    (endYear r) (extra r) (current_member r) (duration r)
    (tenure_all_time r) v (tenure_current r)
    (tenure_current_party r) (party_all_time_count r) (party_current_count r).
Definition set_tenure_current (r : row) (v : option Z) : row :=
  mkRow (bioguideID r) (name r) (partyName r) (state r) (chamber r) (startYear r)
    (endYear r) (extra r) (current_member r) (duration r)
    (tenure_all_time r) (tenure_all_time_party r) v
    (tenure_current_party r) (party_all_time_count r) (party_current_count r).
Definition set_tenure_current_party (r : row) (v : option Z) : row :=
  mkRow (bioguideID r) (name r) (partyName r) (state r) (chamber r) (startYear r)
    (endYear r) (extra r) (current_member r) (duration r)
    (tenure_all_time r) (tenure_all_time_party r) (tenure_current r)
    v (party_all_time_count r) (party_current_count r).
Definition set_party_all_time_count (r : row) (v : option Z) : row :=
  mkRow (bioguideID r) (name r) (partyName r) (state r) (chamber r) (startYear r)
    (endYear r) (extra r) (current_member r) (duration r)
    (tenure_all_time r) (tenure_all_time_party r) (tenure_current r)
    (tenure_current_party r) v (party_current_count r).
Definition set_party_current_count (r : row) (v : option Z) : row :=
  mkRow (bioguideID r) (name r) (partyName r) (state r) (chamber r) (startYear r)
    (endYear r) (extra r) (current_member r) (duration r)
    (tenure_all_time r) (tenure_all_time_party r) (tenure_current r)
    (tenure_current_party r) (party_all_time_count r) v.

(** [df[c] = cell(row)], the cell computed row by row. *)
Definition with_column {A} (set : row -> A -> row) (cell : row -> A)
    (df : frame) : frame :=
  (fun r => set r (cell r)) <$> df.

(** [df[c] = cells.astype(int)]: the cast refuses a column that still
    holds a NaN, and then nothing is assigned. *)
Definition with_int_column (set : row -> option Z -> row)
    (cell : row -> option Z) (df : frame) : result frame :=
  mapM (fun r => match cell r with
                 | Some v => mret (set r (Some v))
                 | None => raise IntCastingNaNError
                 end) df.

(** [Series.isna()] on one cell. *)
Definition isna {A} (c : option A) : bool :=
  match c with
  | None => true
  | Some _ => false
  end.

(** *** [update_endyear] *)

Definition update_endyear (today : date) (df : frame) : result frame :=
  let df := with_column set_current_member
              (fun r => Some (if isna (endYear r) then "yes" else "no")%string) df in
  let year := year today in
  let df := with_column set_endYear
              (fun r => if isna (endYear r)
                           && bool_decide (chamber r = "House of Representatives"%string)
                        then Some (year + 2 - (year - startYear r) `mod` 2)
                        else endYear r) df in
  let df := with_column set_endYear
              (fun r => if isna (endYear r)
                           && bool_decide (chamber r = "Senate"%string)
                        then Some (year + 6 - (year - startYear r) `mod` 6)
                        else endYear r) df in
  with_int_column set_endYear endYear df.

(** *** [add_tenure] *)

(** [df.groupby(key)['duration'].rank(ascending=False, method='min')] at
    one row: the rank of the row's duration among the rows that carry the
    same key.  A row whose key is null belongs to no group and gets NaN
    ([dropna=True]). *)
Definition groupby_rank {K} `{EqDecision K} (key : row -> option K)
    (df : frame) (r : row) : option Z :=
  match key r with
  | None => None
  | Some k =>
      rank_in (duration <$> filter (fun s => key s = Some k) df) (duration r)
  end.

(** [df.groupby(key)['bioguideID'].transform('count')] at one row: the
    size of the row's group ([bioguideID] holds no nulls). *)
Definition groupby_count {K} `{EqDecision K} (key : row -> option K)
    (df : frame) (r : row) : option Z :=
  match key r with
  | None => None
  | Some k => Some (Z.of_nat (length (filter (fun s => key s = Some k) df)))
  end.

Definition by_party (r : row) : option string := Some (partyName r).
Definition by_current (r : row) : option string := current_member r.
Definition by_current_party (r : row) : option (string * string) :=
  cm ← current_member r; Some (cm, partyName r).
Definition by_party_current (r : row) : option (string * string) :=
  cm ← current_member r; Some (partyName r, cm).

Definition is_current (r : row) : bool :=
  bool_decide (current_member r = Some "yes"%string).

(** The two casts to [pd.Int64Dtype()] keep NaN as <NA>; on the model they
    change nothing. *)
Definition add_tenure (df : frame) : result frame :=
  let df := with_column set_duration
              (fun r => e ← endYear r; Some (e - startYear r)) df in
  df ← with_int_column set_tenure_all_time
         (fun r => rank_in (duration <$> df) (duration r)) df;
  df ← with_int_column set_tenure_all_time_party (groupby_rank by_party df) df;
  let df := with_column set_tenure_current
              (fun r => if is_current r then groupby_rank by_current df r
                        else None) df in
  let df := with_column set_tenure_current_party
              (fun r => if is_current r then groupby_rank by_current_party df r
                        else None) df in
  let df := with_column set_party_all_time_count (groupby_count by_party df) df in
  let df := with_column set_party_current_count
              (groupby_count by_party_current df) df in
  mret df.

(** *** [only_current] and [normalize_name] *)

Definition only_current (df : frame) : frame :=
  filter (fun r => current_member r = Some "yes"%string) df.

(** [name.split(', ')[::-1]] joined with [' '] *)
Definition normalize_name_str (s : string) : string :=
  str_join " " (rev (str_split ", " s)).

Definition normalize_name (df : frame) : frame :=
  with_column set_name (fun r => normalize_name_str (name r)) df.

(** *** [modify_reps], between [pd.read_json] and [df.to_json] *)

Definition modify_reps (today : date) (df : frame) : result frame :=
  df ← update_endyear today df;
  df ← add_tenure df;
  let df := normalize_name df in
  let df := only_current df in
  mret df.

End ModifyReps.

Import ModifyReps.

(** ** Facts about the primitives *)

Section result_facts.
Context {A B : Type}.

Lemma mapM_ok (f : A -> result B) (g : A -> B) (l : list A) :
  Forall (fun x => f x = inr (g x)) l -> mapM f l = inr (g <$> l).
Proof.
  induction 1 as [|x l Hx _ IH]; simpl; [reflexivity|].
  rewrite Hx, IH. reflexivity.
Qed.

Lemma mapM_fail (f : A -> result B) (e : exn) (l : list A) :
  Forall (fun x => f x = inl e \/ exists y, f x = inr y) l ->
  Exists (fun x => f x = inl e) l ->
  mapM f l = inl e.
Proof.
  induction 1 as [|x l Hx Hl IH]; intros Hex; [inversion Hex|].
  simpl. destruct Hx as [Hx|[y Hx]]; rewrite Hx; simpl; [reflexivity|].
  inversion Hex as [? ? Hx'|? ? Hl']; subst; [congruence|].
  rewrite (IH Hl'). reflexivity.
Qed.
End result_facts.

Section frame_facts.

Lemma with_int_column_ok set cell (df : frame) :
  Forall (fun r => is_Some (cell r)) df ->
  with_int_column set cell df = inr (with_column set cell df).
Proof.
  intros H. unfold with_int_column, with_column. apply mapM_ok.
  eapply Forall_impl; [exact H|]. intros r [v Hv]. simpl. rewrite Hv. reflexivity.
Qed.

Lemma with_int_column_nan set cell (df : frame) :
  Exists (fun r => cell r = None) df ->
  with_int_column set cell df = inl IntCastingNaNError.
Proof.
  intros H. unfold with_int_column. apply mapM_fail.
  - apply Forall_forall. intros r _. destruct (cell r); [right; eauto | left; reflexivity].
  - eapply Exists_impl; [exact H|]. intros r Hr. simpl. rewrite Hr. reflexivity.
Qed.

Lemma filter_fmap_comm {X Y} (f : X -> Y) (P : Y -> Prop)
    `{!forall y, Decision (P y)} (l : list X) :
  filter P (f <$> l) = f <$> filter (fun x => P (f x)) l.
Proof.
  induction l as [|x l IH]; [reflexivity|].
  rewrite fmap_cons, !filter_cons. destruct (decide (P (f x))); simpl; rewrite IH; reflexivity.
Qed.

Lemma filter_ext_eq {X} (P Q : X -> Prop)
    `{!forall x, Decision (P x)} `{!forall x, Decision (Q x)} (l : list X) :
  (forall x, P x <-> Q x) -> filter P l = filter Q l.
Proof.
  intros Hpq. induction l as [|x l IH]; [reflexivity|].
  rewrite !filter_cons, IH.
  destruct (decide (P x)) as [p|p], (decide (Q x)) as [q|q];
    try reflexivity; exfalso; [apply q, Hpq, p | apply p, Hpq, q].
Qed.

End frame_facts.

(** ** Competition ranking, as the specification words it *)

(** Duration cell [a] is strictly longer than duration cell [b]. *)
Definition longer (a b : option Z) : Prop :=
  match a, b with
  | Some x, Some y => y < x
  | _, _ => False
  end.

#[global] Instance longer_dec a b : Decision (longer a b).
Proof. unfold longer. destruct a, b; apply _. Defined.

(** [s] served strictly longer than [r]. *)
Definition outlasts (s r : row) : Prop := longer (duration s) (duration r).

#[global] Instance outlasts_dec s r : Decision (outlasts s r).
Proof. unfold outlasts. apply _. Defined.

(** Descending competition rank of [r] within [group]: one more than the
    number of records of the group that served strictly longer. *)
Definition competition_rank (group : frame) (r : row) : Z :=
  1 + Z.of_nat (length (filter (fun s => outlasts s r) group)).


Section rank_facts.

#[local] Instance Zge_trans : Transitive Z.ge.
Proof. intros x y z; lia. Qed.
#[local] Instance Zge_total : Total Z.ge.
Proof. intros x y; lia. Qed.

Lemma first_index_desc (v : Z) (l : list Z) :
  StronglySorted Z.ge l -> v ∈ l ->
  first_index v l = length (filter (fun x => v < x) l).
Proof.
  induction l as [|x l IH]; intros Hs Hv; [reflexivity|].
  apply StronglySorted_cons in Hs as [Hx Hs]. simpl.
  destruct (decide (x = v)) as [->|Hne].
  - rewrite filter_cons_False by lia.
    assert (Hnil : filter (fun y => v < y) l = []).
    { clear -Hx. induction Hx as [|y l Hy _ IH]; [reflexivity|].
      rewrite filter_cons_False by lia. exact IH. }
    rewrite Hnil. reflexivity.
  - apply elem_of_cons in Hv as [Hv|Hv]; [congruence|].
    assert (v <= x) by (rewrite Forall_forall in Hx; specialize (Hx v Hv); lia).
    rewrite filter_cons_True by lia. simpl. f_equal. apply IH; assumption.
Qed.

Lemma values_durations (v : Z) (r : row) (l : frame) :
  duration r = Some v ->
  length (filter (fun x => v < x) (values (duration <$> l))) =
  length (filter (fun s => outlasts s r) l).
Proof.
  intros Hv. unfold values. induction l as [|s l IH]; [reflexivity|].
  rewrite fmap_cons. simpl. rewrite (filter_cons _ s).
  destruct (decide (outlasts s r)) as [Ho|Ho]; unfold outlasts, longer in Ho;
    rewrite Hv in Ho; destruct (duration s) as [a|]; simpl.
  - rewrite filter_cons_True by exact Ho. simpl. f_equal. exact IH.
  - contradiction.
  - rewrite filter_cons_False by exact Ho. exact IH.
  - exact IH.
Qed.

(** The sort-and-scan rank is the competition rank. *)
Lemma rank_in_competition (group : frame) (r : row) :
  r ∈ group -> is_Some (duration r) ->
  rank_in (duration <$> group) (duration r) = Some (competition_rank group r).
Proof.
  intros Hin [v Hv]. rewrite Hv. unfold rank_in, competition_rank.
  do 3 f_equal.
  rewrite first_index_desc.
  - rewrite (merge_sort_Permutation Z.ge (values (duration <$> group))).
    rewrite (values_durations v r) by exact Hv. reflexivity.
  - apply StronglySorted_merge_sort; apply _.
  - rewrite (merge_sort_Permutation Z.ge). unfold values.
    apply list_elem_of_omap. exists (Some v). split; [|reflexivity].
    rewrite <- Hv. apply list_elem_of_fmap_2. exact Hin.
Qed.

End rank_facts.

Section competition_laws.


Lemma competition_rank_tie (group : frame) (r s : row) :
  duration r = duration s -> competition_rank group r = competition_rank group s.
Proof.
  intros H. unfold competition_rank. do 3 f_equal.
  apply filter_ext_eq. intros t. unfold outlasts. rewrite H. reflexivity.
Qed.


End competition_laws.

(** ** [add_tenure] in closed form *)

(** The frame after the first assignment of [add_tenure]. *)
Definition with_duration (df : frame) : frame :=
  with_column set_duration (fun r => e ← endYear r; Some (e - startYear r)) df.

(** A row of the frame [add_tenure] returns, every cell computed from the
    frame [df] that already carries [duration]. *)
Definition tenure_row (df : frame) (r : row) : row :=
  mkRow (bioguideID r) (name r) (partyName r) (state r) (chamber r)
    (startYear r) (endYear r) (extra r) (current_member r) (duration r)
    (rank_in (duration <$> df) (duration r))
    (groupby_rank by_party df r)
    (if is_current r then groupby_rank by_current df r else None)
    (if is_current r then groupby_rank by_current_party df r else None)
    (groupby_count by_party df r)
    (groupby_count by_party_current df r).

Section add_tenure_facts.

(** A column assignment that leaves the grouping keys and [duration]
    alone does not change any rank or count. *)
Definition keeps_keys (h : row -> row) : Prop :=
  forall s, partyName (h s) = partyName s
            /\ current_member (h s) = current_member s
            /\ duration (h s) = duration s.

Definition key_of_keys {K} (key : row -> option K) : Prop :=
  forall s t, partyName s = partyName t -> current_member s = current_member t ->
              key s = key t.

Lemma by_party_keys : key_of_keys by_party.
Proof. intros s t Hp Hc. unfold by_party. congruence. Qed.
Lemma by_current_keys : key_of_keys by_current.
Proof. intros s t Hp Hc. unfold by_current. congruence. Qed.
Lemma by_current_party_keys : key_of_keys by_current_party.
Proof. intros s t Hp Hc. unfold by_current_party. rewrite Hp, Hc. reflexivity. Qed.
Lemma by_party_current_keys : key_of_keys by_party_current.
Proof. intros s t Hp Hc. unfold by_party_current. rewrite Hp, Hc. reflexivity. Qed.

Lemma group_fmap {K} `{EqDecision K} (key : row -> option K) (k : K) h (df : frame) :
  key_of_keys key -> keeps_keys h ->
  filter (fun s => key s = Some k) (h <$> df) =
  h <$> filter (fun s => key s = Some k) df.
Proof.
  intros Hk Hh. rewrite filter_fmap_comm. f_equal.
  apply filter_ext_eq. intros s.
  destruct (Hh s) as (Hp & Hc & _). rewrite (Hk (h s) s Hp Hc). reflexivity.
Qed.

Lemma durations_fmap h (df : frame) :
  keeps_keys h -> duration <$> (h <$> df) = duration <$> df.
Proof.
  intros Hh. rewrite <- list_fmap_compose. apply list_fmap_ext.
  intros i s _. simpl. apply Hh.
Qed.

Lemma groupby_rank_fmap {K} `{EqDecision K} (key : row -> option K) h (df : frame) r :
  key_of_keys key -> keeps_keys h ->
  groupby_rank key (h <$> df) r = groupby_rank key df r.
Proof.
  intros Hk Hh. unfold groupby_rank. destruct (key r) as [k|]; [|reflexivity].
  rewrite group_fmap, durations_fmap by assumption. reflexivity.
Qed.

Lemma groupby_count_fmap {K} `{EqDecision K} (key : row -> option K) h (df : frame) r :
  key_of_keys key -> keeps_keys h ->
  groupby_count key (h <$> df) r = groupby_count key df r.
Proof.
  intros Hk Hh. unfold groupby_count. destruct (key r) as [k|]; [|reflexivity].
  rewrite group_fmap, length_fmap by assumption. reflexivity.
Qed.

End add_tenure_facts.

Section add_tenure_closed_form.

Lemma rank_in_is_Some group cell : is_Some cell -> is_Some (rank_in group cell).
Proof. intros [v ->]. simpl. eauto. Qed.

Lemma groupby_rank_is_Some {K} `{EqDecision K} (key : row -> option K) df r :
  is_Some (key r) -> is_Some (duration r) -> is_Some (groupby_rank key df r).
Proof.
  intros [k Hk] Hd. unfold groupby_rank. rewrite Hk. apply rank_in_is_Some, Hd.
Qed.

Lemma with_duration_is_Some (df : frame) :
  Forall (fun r => is_Some (endYear r)) df ->
  Forall (fun r => is_Some (duration r)) (with_duration df).
Proof.
  intros H. unfold with_duration, with_column. apply Forall_fmap.
  eapply Forall_impl; [exact H|]. intros r [e He]. simpl. rewrite He. simpl. eauto.
Qed.

Ltac keys :=
  first [ exact by_party_keys | exact by_current_keys
        | exact by_current_party_keys | exact by_party_current_keys
        | (intros ?; repeat split; reflexivity) ].

Lemma add_tenure_closed (df : frame) :
  Forall (fun r => is_Some (endYear r)) df ->
  add_tenure df = inr (tenure_row (with_duration df) <$> with_duration df).
Proof.
  intros H. apply with_duration_is_Some in H.
  unfold add_tenure. fold (with_duration df).
  set (d := with_duration df) in *.
  rewrite with_int_column_ok.
  2:{ eapply Forall_impl; [exact H|]. intros r Hr. apply rank_in_is_Some, Hr. }
  unfold mbind, result_bind, bind.
  rewrite with_int_column_ok.
  2:{ unfold with_column. apply Forall_fmap.
      eapply Forall_impl; [exact H|]. intros r Hr.
      apply groupby_rank_is_Some; [unfold by_party; eauto | exact Hr]. }
  unfold mret, result_ret, ret. f_equal.
  unfold with_column. rewrite <- !list_fmap_compose.
  apply list_fmap_ext. intros i r _. unfold compose.
  rewrite ?groupby_rank_fmap, ?groupby_count_fmap by keys.
  reflexivity.
Qed.

Lemma add_tenure_nan (df : frame) :
  Exists (fun r => endYear r = None) df ->
  add_tenure df = inl IntCastingNaNError.
Proof.
  intros H. unfold add_tenure.
  rewrite with_int_column_nan; [reflexivity|].
  unfold with_column. apply Exists_fmap.
  eapply Exists_impl; [exact H|]. intros r Hr. simpl. rewrite Hr. reflexivity.
Qed.

End add_tenure_closed_form.

(** ** [update_endyear] *)

(** The three column assignments of [update_endyear], followed on one row. *)
Definition fill_row (yr : Z) (r : row) : row :=
  let r := set_current_member r
             (Some (if isna (endYear r) then "yes" else "no")%string) in
  let r := set_endYear r
             (if isna (endYear r)
                 && bool_decide (chamber r = "House of Representatives"%string)
              then Some (yr + 2 - (yr - startYear r) `mod` 2) else endYear r) in
  set_endYear r
    (if isna (endYear r) && bool_decide (chamber r = "Senate"%string)
     then Some (yr + 6 - (yr - startYear r) `mod` 6) else endYear r).

(** Sample rows, as [pd.read_json] delivers them. *)
Definition raw (id nm party ch : string) (start : Z) (stop : option Z) : row :=
  mkRow id nm party "CA" ch start stop [] None None None None None None None None.

Definition today_2025 : date := mkDate 2025 11 4.
Definition today_2027 : date := mkDate 2027 3 1.

Definition rep_house : row :=
  raw "R000001" "Roe, Pat" "Republican" "House of Representatives" 2019 None.
Definition rep_senate : row :=
  raw "S000001" "Smith, John" "Democratic" "Senate" 2021 None.
Definition rep_former : row :=
  raw "C000243" "Doe, Jane, Jr." "Democratic" "House of Representatives" 1993 (Some 2011).

Section update_endyear_facts.

Lemma update_endyear_rows (today : date) (df : frame) :
  update_endyear today df =
  with_int_column set_endYear endYear (fill_row (year today) <$> df).
Proof.
  unfold update_endyear, with_column. rewrite <- !list_fmap_compose. reflexivity.
Qed.

Lemma fill_row_present (yr : Z) (r : row) (e : Z) :
  endYear r = Some e ->
  fill_row yr r = set_current_member r (Some "no"%string).
Proof.
  intros He. unfold fill_row. destruct r; simpl in *. subst. reflexivity.
Qed.



Lemma fill_row_other (yr : Z) (r : row) :
  endYear r = None ->
  chamber r <> "House of Representatives"%string ->
  chamber r <> "Senate"%string ->
  fill_row yr r = set_current_member r (Some "yes"%string).
Proof.
  intros He Hh Hs. unfold fill_row. destruct r; simpl in *. subst.
  rewrite !bool_decide_eq_false_2 by assumption. reflexivity.
Qed.

End update_endyear_facts.

(** ** Term Normalizer *)

Definition house : string := "House of Representatives".
Definition senate : string := "Senate".


(** A row with a missing [endYear] and a chamber that is neither of the two. *)
Definition unrecognized (r : row) : Prop :=
  endYear r = None /\ chamber r <> house /\ chamber r <> senate.



(** A frame holding an unrecognized row never gets past the integer cast. *)
Lemma update_endyear_nan (today : date) (df : frame) :
  Exists unrecognized df -> update_endyear today df = inl IntCastingNaNError.
Proof.
  intros H. rewrite update_endyear_rows. apply with_int_column_nan.
  apply Exists_fmap. eapply Exists_impl; [exact H|].
  intros r (He & Hh & Hs). unfold compose.
  rewrite fill_row_other by assumption. simpl. exact He.
Qed.

(** Every frame [update_endyear] returns is fully normalized. *)
Lemma update_endyear_normalized (today : date) (df df' : frame) :
  update_endyear today df = inr df' ->
  Forall (fun r => is_Some (endYear r) /\ is_Some (current_member r)) df'.
Proof.
  rewrite update_endyear_rows.
  destruct (decide (Forall (fun r => is_Some (endYear r))
                      (fill_row (year today) <$> df))) as [Hall|Hex].
  - rewrite with_int_column_ok by exact Hall. intros [= <-].
    unfold with_column. rewrite <- list_fmap_compose.
    apply Forall_fmap. revert Hall. rewrite Forall_fmap. intros Hall.
    eapply Forall_impl; [exact Hall|]. intros r Hr. unfold compose in *.
    split; [exact Hr|]. unfold fill_row. simpl. eauto.
  - apply not_Forall_Exists in Hex; [|apply _].
    rewrite with_int_column_nan; [discriminate|].
    eapply Exists_impl; [exact Hex|]. intros r Hr. simpl in Hr.
    destruct (endYear r); [exfalso; apply Hr; eauto | reflexivity].
Qed.




(** C8. Re-running the Term Normalizer (amended).  On rows whose [endYear]
    is present a further run of [update_endyear] changes exactly one column:
    [current_member] becomes "no".  It is a no-op on the rows that already
    carry "no". *)
Theorem update_endyear_rerun (today : date) (df : frame) :
  Forall (fun r => is_Some (endYear r)) df ->
  update_endyear today df
    = inr ((fun r => set_current_member r (Some "no"%string)) <$> df) /\
  (Forall (fun r => current_member r = Some "no"%string) df ->
   update_endyear today df = inr df).
Proof.
  intros H.
  assert (Hrun : update_endyear today df
                 = inr ((fun r => set_current_member r (Some "no"%string)) <$> df)).
  { rewrite update_endyear_rows, with_int_column_ok.
    - unfold with_column. rewrite <- list_fmap_compose. f_equal.
      apply list_fmap_ext. intros i r Hr. unfold compose.
      apply (Forall_lookup_1 _ _ _ _ H) in Hr as [e He].
      rewrite (fill_row_present _ r e He).
      unfold set_endYear, set_current_member; simpl. reflexivity.
    - apply Forall_fmap. eapply Forall_impl; [exact H|]. intros r [e He].
      unfold compose. rewrite (fill_row_present _ r e He). simpl. eauto. }
  split; [exact Hrun|].
  intros Hno. rewrite Hrun. f_equal.
  rewrite <- (list_fmap_id df) at 2. apply list_fmap_ext.
  intros i r Hr. apply (Forall_lookup_1 _ _ _ _ Hno) in Hr.
  destruct r; simpl in *. subst. reflexivity.
Qed.

Lemma update_endyear_rerun_witness :
  update_endyear today_2025 [rep_former]
  = inr [set_current_member rep_former (Some "no"%string)].
Proof.
  apply (update_endyear_rerun today_2025 [rep_former]).
  apply List.Forall_cons; [simpl; eauto | apply List.Forall_nil].
Defined.

(** C8, as claimed, fails: a Senate row normalized in 2025 has a present
    [endYear] and is marked "yes"; the second run marks it "no". *)
Lemma update_endyear_rerun_counterexample :
  exists once twice,
    update_endyear today_2025 [rep_senate] = inr [once] /\
    is_Some (endYear once) /\
    update_endyear today_2025 [once] = inr [twice] /\
    current_member once = Some "yes"%string /\
    current_member twice = Some "no"%string /\
    twice <> once.
Proof.
  eexists _, _. split; [reflexivity|]. split; [simpl; eauto|].
  split; [reflexivity|]. split; [reflexivity|]. split; [reflexivity|].
  discriminate.
Qed.

(** ** The clock *)

(** C9. Determinism (amended).  [update_endyear] reads the calendar year off
    the clock and uses nothing else of it; no other stage consults the
    clock.  Two runs of the pipeline on the same table under clock readings
    of the same year return the same result. *)
Theorem modify_reps_same_year (today today' : date) (df : frame) :
  year today = year today' ->
  update_endyear today df = update_endyear today' df /\
  modify_reps today df = modify_reps today' df.
Proof.
  intros Hy.
  assert (H : update_endyear today df = update_endyear today' df).
  { rewrite !update_endyear_rows, Hy. reflexivity. }
  split; [exact H|]. unfold modify_reps. rewrite H. reflexivity.
Qed.

Lemma modify_reps_same_year_witness :
  modify_reps (mkDate 2025 1 3) [rep_house; rep_senate; rep_former]
  = modify_reps (mkDate 2025 12 31) [rep_house; rep_senate; rep_former].
Proof.
  apply (modify_reps_same_year (mkDate 2025 1 3) (mkDate 2025 12 31)).
  reflexivity.
Defined.

(** C9, as claimed, fails: the call takes the table and nothing else, and
    the same table run under two clock readings gives two different
    tables. *)
Lemma modify_reps_clock_counterexample :
  ~ (forall (today today' : date) (df : frame),
       modify_reps today df = modify_reps today' df).
Proof.
  intros H. specialize (H today_2025 today_2027 [rep_senate]).
  vm_compute in H. discriminate H.
Qed.

(** ** Current-Member Filter *)

(** Number of rows of [df] equal to [r]. *)
Definition occurrences (r : row) (df : frame) : nat :=
  length (filter (fun x => x = r) df).

(** C5. Current-Member Filter.  [only_current] returns exactly the rows with
    [current_member = "yes"]: every returned row carries "yes"; a row that
    carries "yes" is returned as often as the input holds it, and any other
    row not at all; the returned rows are input rows, unaltered and in input
    order. *)
Theorem only_current_filter (df : frame) :
  Forall (fun r => current_member r = Some "yes"%string) (only_current df) /\
  (forall r, current_member r = Some "yes"%string ->
             occurrences r (only_current df) = occurrences r df) /\
  (forall r, current_member r <> Some "yes"%string ->
             occurrences r (only_current df) = O) /\
  (forall r, r ∈ only_current df <->
             r ∈ df /\ current_member r = Some "yes"%string) /\
  only_current df `sublist_of` df.
Proof.
  unfold only_current, occurrences.
  split; [|split; [|split; [|split]]].
  - apply Forall_forall. intros r Hr. apply list_elem_of_filter in Hr. tauto.
  - intros r Hr. rewrite list_filter_filter. f_equal.
    apply filter_ext_eq. intros x. split; [tauto|]. intros ->. tauto.
  - intros r Hr. rewrite list_filter_filter.
    induction df as [|x l IH]; [reflexivity|].
    rewrite filter_cons_False; [exact IH|]. intros [-> Hx]. contradiction.
  - intros r. rewrite list_elem_of_filter. tauto.
  - apply sublist_filter.
Qed.

(** ** Name Normalizer *)

(** [sep in s] *)
Fixpoint contains (sep s : string) : bool :=
  match s with
  | EmptyString => String.prefix sep EmptyString
  | String _ s' => String.prefix sep s || contains sep s'
  end.


Section split_facts.

Lemma append_cons (c : ascii) (s t : string) :
  String.append (String c s) t = String c (String.append s t).
Proof. reflexivity. Qed.

Lemma append_nil_l (t : string) : String.append EmptyString t = t.
Proof. reflexivity. Qed.

Lemma prefix_nil (s : string) : String.prefix EmptyString s = true.
Proof. destruct s; reflexivity. Qed.

Lemma prefix_cons (a b : ascii) (s1 s2 : string) :
  String.prefix (String a s1) (String b s2)
  = if ascii_dec a b then String.prefix s1 s2 else false.
Proof. reflexivity. Qed.

Lemma append_nil_r (s : string) : String.append s EmptyString = s.
Proof.
  induction s as [|c s IH]; [reflexivity|]. rewrite append_cons, IH. reflexivity.
Qed.

Lemma append_snoc (tok : string) (c : ascii) (t : string) :
  String.append (String.append tok (String c EmptyString)) t
  = String.append tok (String c t).
Proof.
  induction tok as [|d tok IH]; [reflexivity|].
  rewrite !append_cons, IH. reflexivity.
Qed.




End split_facts.



(** ** The dictionary normalizer [mod_json] *)

(** A dictionary the loop body can process: when [endYear] is missing,
    [chamber] is a string and [startYear] an integer. *)
Definition loadable (rep : gmap string pyval) : Prop :=
  rep !! "endYear" = None ->
  (exists c, rep !! "chamber" = Some (PyStr c)) /\
  (exists y, rep !! "startYear" = Some (PyInt y)).

Definition dict_house : gmap string pyval :=
  {[ "chamber" := PyStr "House of Representatives"; "startYear" := PyInt 2019;
     "name" := PyStr "Roe, Pat" ]}.
Definition dict_senate : gmap string pyval :=
  {[ "chamber" := PyStr "SENATE"; "startYear" := PyInt 2021 ]}.
Definition dict_former : gmap string pyval :=
  {[ "chamber" := PyStr "Senate"; "startYear" := PyInt 2001;
     "endYear" := PyInt 2007 ]}.
Definition dict_delegate : gmap string pyval :=
  {[ "chamber" := PyStr "Delegate"; "startYear" := PyInt 2023 ]}.

Section mod_json_facts.

Lemma mapM_Forall2 {A B} (f : A -> result B) (P : A -> Prop)
    (R : A -> B -> Prop) (l : list A) :
  (forall x, P x -> exists y, f x = inr y /\ R x y) ->
  Forall P l -> exists l', mapM f l = inr l' /\ Forall2 R l l'.
Proof.
  intros Hf. induction 1 as [|x l Hx _ (l' & Hl & HR)].
  - exists []. split; [reflexivity | constructor].
  - destruct (Hf x Hx) as (y & Hy & Hxy). exists (y :: l').
    split; [simpl; rewrite Hy, Hl; reflexivity | constructor; assumption].
Qed.

Lemma mod_rep_present (rep : gmap string pyval) :
  is_Some (rep !! "endYear") -> mod_rep rep = inr rep.
Proof. intros [v Hv]. unfold mod_rep. rewrite Hv. reflexivity. Qed.

Lemma mod_rep_missing (rep : gmap string pyval) (c : string) (y : Z) :
  rep !! "endYear" = None ->
  rep !! "chamber" = Some (PyStr c) ->
  rep !! "startYear" = Some (PyInt y) ->
  mod_rep rep =
  inr (if decide (str_lower c = str_lower "Senate")
       then <["endYear" := PyInt (y + 6)]> rep
       else if decide (str_lower c = str_lower "House of Representatives")
            then <["endYear" := PyInt (y + 2)]> rep
            else rep).
Proof.
  intros He Hc Hy. unfold mod_rep, getitem. rewrite He, Hc, Hy.
  unfold mbind, result_bind, bind, ret, py_lower, ret.
  repeat case_decide; reflexivity.
Qed.

End mod_json_facts.

(** C10. The alternate normalizer.  On loadable dictionaries [mod_json]
    returns, and dictionary by dictionary: a missing [endYear] becomes
    [startYear + 6] when the chamber is "Senate" up to letter case and
    [startYear + 2] when it is "House of Representatives" up to letter case,
    whatever the year; with any other chamber, or with [endYear] present,
    the dictionary is returned as it was; [current_member] is never
    written. *)
Theorem mod_json_fills (reps : list (gmap string pyval)) :
  Forall loadable reps ->
  exists reps',
    mod_json reps = inr reps' /\
    Forall2 (fun rep rep' =>
      (forall c y,
         rep !! "endYear" = None ->
         rep !! "chamber" = Some (PyStr c) ->
         rep !! "startYear" = Some (PyInt y) ->
         (str_lower c = str_lower "Senate" ->
            rep' = <["endYear" := PyInt (y + 6)]> rep) /\
         (str_lower c = str_lower "House of Representatives" ->
            rep' = <["endYear" := PyInt (y + 2)]> rep) /\
         (str_lower c <> str_lower "Senate" ->
          str_lower c <> str_lower "House of Representatives" ->
            rep' = rep)) /\
      (is_Some (rep !! "endYear") -> rep' = rep) /\
      rep' !! "current_member" = rep !! "current_member")
      reps reps'.
Proof.
  intros H. unfold mod_json. eapply mapM_Forall2; [|exact H].
  intros rep Hrep. destruct (rep !! "endYear") as [v|] eqn:He.
  - exists rep. split; [apply mod_rep_present; rewrite He; eauto|].
    split; [intros c y Hn; discriminate|].
    split; reflexivity.
  - destruct (Hrep He) as ((c & Hc) & (y & Hy)).
    eexists. split; [apply (mod_rep_missing rep c y He Hc Hy)|].
    split; [|split].
    + intros c' y' _ Hc' Hy'. rewrite Hc in Hc'. rewrite Hy in Hy'.
      injection Hc' as <-. injection Hy' as <-.
      repeat split; intros; repeat case_decide; try reflexivity;
        try contradiction; vm_compute in *; congruence.
    + intros [w Hw]. discriminate.
    + repeat case_decide; try reflexivity;
        rewrite lookup_insert_ne by discriminate; reflexivity.
Qed.

Lemma mod_json_fills_witness :
  exists reps',
    mod_json [dict_house; dict_senate; dict_former; dict_delegate] = inr reps' /\
    (fun rep => rep !! "endYear") <$> reps'
    = [Some (PyInt 2021); Some (PyInt 2027); Some (PyInt 2007); None] /\
    (fun rep => rep !! "current_member") <$> reps' = [None; None; None; None].
Proof.
  destruct (mod_json_fills [dict_house; dict_senate; dict_former; dict_delegate])
    as (reps' & Hrun & _).
  - repeat (apply List.Forall_cons;
            [intros _; split; eexists; vm_compute; reflexivity|]).
    apply List.Forall_nil.
  - exists reps'. split; [exact Hrun|].
    vm_compute in Hrun. injection Hrun as <-. split; vm_compute; reflexivity.
Defined.

(** ** Tenure Calculator *)

Section tenure_facts.

(** Filtering commutes with a column assignment the predicate cannot see. *)
Lemma filter_through {X} (h : X -> X) (P Q : X -> Prop)
    `{!forall x, Decision (P x)} `{!forall x, Decision (Q x)} (l : list X) :
  (forall s, P (h s) <-> Q s) ->
  filter P (h <$> l) = h <$> filter Q l.
Proof.
  intros Hpq. rewrite filter_fmap_comm. f_equal.
  apply filter_ext_eq. exact Hpq.
Qed.

Lemma competition_rank_fmap (h : row -> row) (group : frame) (r : row) :
  (forall s, duration (h s) = duration s) ->
  competition_rank (h <$> group) (h r) = competition_rank group r.
Proof.
  intros Hd. unfold competition_rank.
  rewrite (filter_through h _ (fun s => outlasts s r)).
  - rewrite length_fmap. reflexivity.
  - intros s. unfold outlasts. rewrite !Hd. reflexivity.
Qed.

Lemma competition_rank_ext (g1 g2 : frame) (r : row) :
  g1 = g2 -> competition_rank g1 r = competition_rank g2 r.
Proof. intros ->. reflexivity. Qed.

Lemma groupby_rank_competition {K} `{EqDecision K} (key : row -> option K)
    (d : frame) (r : row) (k : K) :
  key r = Some k -> r ∈ d -> is_Some (duration r) ->
  groupby_rank key d r
  = Some (competition_rank (filter (fun s => key s = Some k) d) r).
Proof.
  intros Hk Hin Hd. unfold groupby_rank. rewrite Hk.
  apply rank_in_competition; [|exact Hd].
  apply list_elem_of_filter. split; assumption.
Qed.

Lemma groupby_count_size {K} `{EqDecision K} (key : row -> option K)
    (d : frame) (r : row) (k : K) :
  key r = Some k ->
  groupby_count key d r
  = Some (Z.of_nat (length (filter (fun s => key s = Some k) d))).
Proof. intros Hk. unfold groupby_count. rewrite Hk. reflexivity. Qed.

(** What [add_tenure] returns, row by row, read against the returned
    frame itself. *)
Lemma add_tenure_rows (df : frame) :
  Forall (fun r => is_Some (endYear r)) df ->
  exists df',
    add_tenure df = inr df' /\
    length df' = length df /\
    Forall (fun r' =>
      (exists e, endYear r' = Some e /\ duration r' = Some (e - startYear r')) /\
      tenure_all_time r' = Some (competition_rank df' r') /\
      tenure_all_time_party r'
      = Some (competition_rank
                (filter (fun s => partyName s = partyName r') df') r') /\
      tenure_current r'
      = (if is_current r'
         then Some (competition_rank (only_current df') r') else None) /\
      tenure_current_party r'
      = (if is_current r'
         then Some (competition_rank
                      (filter (fun s => partyName s = partyName r')
                              (only_current df')) r')
         else None) /\
      party_all_time_count r'
      = Some (Z.of_nat (length (filter (fun s => partyName s = partyName r') df'))) /\
      (forall cm, current_member r' = Some cm ->
         party_current_count r'
         = Some (Z.of_nat (length
             (filter (fun s => partyName s = partyName r'
                               /\ current_member s = current_member r') df')))))
      df'.
Proof.
  intros H. exists (tenure_row (with_duration df) <$> with_duration df).
  split; [apply add_tenure_closed, H|].
  split; [unfold with_duration, with_column; rewrite !length_fmap; reflexivity|].
  pose proof (with_duration_is_Some df H) as Hd.
  assert (He : Forall (fun r => exists e, endYear r = Some e
                                /\ duration r = Some (e - startYear r))
                 (with_duration df)).
  { unfold with_duration, with_column. apply Forall_fmap.
    eapply Forall_impl; [exact H|]. intros r [e Hr]. unfold compose. simpl.
    rewrite Hr. simpl. eauto. }
  set (d := with_duration df) in *. clearbody d. clear H df.
  set (h := tenure_row d).
  assert (Hh : forall s, duration (h s) = duration s) by reflexivity.
  apply Forall_fmap, Forall_forall. intros r Hr. unfold compose.
  pose proof (proj1 (Forall_forall _ _) Hd r Hr) as Hdr.
  pose proof (proj1 (Forall_forall _ _) He r Hr) as Her.
  split; [exact Her|].
  split; [|split; [|split; [|split; [|split]]]].
  - change (tenure_all_time (h r))
      with (rank_in (duration <$> d) (duration r)).
    rewrite rank_in_competition by assumption.
    rewrite competition_rank_fmap by exact Hh. reflexivity.
  - change (tenure_all_time_party (h r)) with (groupby_rank by_party d r).
    change (partyName (h r)) with (partyName r).
    rewrite (groupby_rank_competition by_party d r (partyName r))
      by (reflexivity || assumption).
    f_equal.
    rewrite (filter_through h _ (fun s => by_party s = Some (partyName r))).
    + rewrite competition_rank_fmap by exact Hh. reflexivity.
    + intros s. unfold by_party. simpl. split; congruence.
  - change (tenure_current (h r))
      with (if is_current r then groupby_rank by_current d r else None).
    change (is_current (h r)) with (is_current r).
    destruct (is_current r) eqn:Hc; [|reflexivity].
    apply bool_decide_eq_true in Hc.
    rewrite (groupby_rank_competition by_current d r "yes")
      by (exact Hc || assumption).
    f_equal. unfold only_current.
    rewrite (filter_through h _ (fun s => by_current s = Some "yes"%string)).
    + rewrite competition_rank_fmap by exact Hh. reflexivity.
    + intros s. unfold by_current. simpl. reflexivity.
  - change (tenure_current_party (h r))
      with (if is_current r then groupby_rank by_current_party d r else None).
    change (is_current (h r)) with (is_current r).
    destruct (is_current r) eqn:Hc; [|reflexivity].
    apply bool_decide_eq_true in Hc.
    rewrite (groupby_rank_competition by_current_party d r ("yes"%string, partyName r))
      by (assumption || (unfold by_current_party; rewrite Hc; reflexivity)).
    f_equal. unfold only_current. rewrite list_filter_filter.
    change (partyName (h r)) with (partyName r).
    rewrite (filter_through h _
               (fun s => by_current_party s = Some ("yes"%string, partyName r))).
    + rewrite competition_rank_fmap by exact Hh. reflexivity.
    + intros s. unfold by_current_party. simpl.
      destruct (current_member s) as [cm|]; simpl;
        [split; [intros [Hp Hy]; congruence | intros [= Hy Hp]; split; congruence]
        |split; [intros [_ Hy]; discriminate | discriminate]].
  - change (party_all_time_count (h r)) with (groupby_count by_party d r).
    change (partyName (h r)) with (partyName r).
    rewrite (groupby_count_size by_party d r (partyName r)) by reflexivity.
    rewrite (filter_through h _ (fun s => by_party s = Some (partyName r))).
    + rewrite length_fmap. reflexivity.
    + intros s. unfold by_party. simpl. split; congruence.
  - intros cm Hcm.
    change (party_current_count (h r))
      with (groupby_count by_party_current d r).
    change (partyName (h r)) with (partyName r).
    change (current_member (h r)) with (current_member r) in *.
    rewrite (groupby_count_size by_party_current d r (partyName r, cm))
      by (unfold by_party_current; rewrite Hcm; reflexivity).
    rewrite (filter_through h _
               (fun s => by_party_current s = Some (partyName r, cm))).
    + rewrite length_fmap. reflexivity.
    + intros s. unfold by_party_current. simpl. rewrite Hcm.
      destruct (current_member s) as [cm'|]; simpl;
        [split; [intros [Hp Hy]; congruence | intros [= Hp Hy]; split; congruence]
        |split; [intros [_ Hy]; discriminate | discriminate]].
Qed.

End tenure_facts.

Definition tenure_a : row :=
  raw "A000001" "Abe, Ann" "Democratic" "Senate" 2001 (Some 2011).
Definition tenure_b : row :=
  raw "B000001" "Bell, Bo" "Republican" "Senate" 1991 (Some 2001).
Definition tenure_c : row :=
  raw "C000001" "Cole, Cy" "Democratic" "House of Representatives" 2003 (Some 2011).



Definition current_a : row :=
  set_current_member tenure_a (Some "yes"%string).
Definition current_b : row :=
  set_current_member tenure_b (Some "no"%string).
Definition current_c : row :=
  set_current_member tenure_c (Some "yes"%string).

(** C3. Current-only ranks.  After [add_tenure], [tenure_current] and
    [tenure_current_party] hold a value exactly on the rows with
    [current_member = "yes"]; there [tenure_current] is the descending
    competition rank of the duration among the current rows, and
    [tenure_current_party] the same rank among the current rows of the same
    [partyName]. *)
Theorem add_tenure_current_ranks (df : frame) :
  Forall (fun r => is_Some (endYear r)) df ->
  exists df',
    add_tenure df = inr df' /\
    Forall (fun r' =>
      (is_Some (tenure_current r') <-> current_member r' = Some "yes"%string) /\
      (is_Some (tenure_current_party r') <-> current_member r' = Some "yes"%string) /\
      (current_member r' = Some "yes"%string ->
         tenure_current r' = Some (competition_rank (only_current df') r') /\
         tenure_current_party r'
         = Some (competition_rank
                   (filter (fun s => partyName s = partyName r')
                           (only_current df')) r'))) df'.
Proof.
  intros H. destruct (add_tenure_rows df H) as (df' & Hrun & Hlen & Hrows).
  exists df'. split; [exact Hrun|].
  eapply Forall_impl; [exact Hrows|]. cbv beta.
  intros r' (_ & _ & _ & Hc & Hcp & _). rewrite Hc, Hcp. unfold is_current.
  destruct (decide (current_member r' = Some "yes"%string)) as [Hy|Hn].
  - rewrite bool_decide_eq_true_2 by exact Hy.
    split; [split; eauto|]. split; [split; eauto|]. intros _. split; reflexivity.
  - rewrite bool_decide_eq_false_2 by exact Hn.
    split; [split; [intros [x Hx]; discriminate | contradiction]|].
    split; [split; [intros [x Hx]; discriminate | contradiction]|].
    contradiction.
Qed.

Lemma add_tenure_current_ranks_witness :
  exists df',
    add_tenure [current_a; current_b; current_c] = inr df' /\
    tenure_current <$> df' = [Some 1; None; Some 2] /\
    tenure_current_party <$> df' = [Some 1; None; Some 2].
Proof.
  destruct (add_tenure_current_ranks [current_a; current_b; current_c])
    as (df' & Hrun & _).
  - repeat (apply List.Forall_cons; [simpl; eauto|]). apply List.Forall_nil.
  - exists df'. split; [exact Hrun|].
    vm_compute in Hrun. injection Hrun as <-. split; reflexivity.
Defined.

(** C4. Party counts.  After [add_tenure], [party_all_time_count] is the
    number of rows with the row's [partyName], and [party_current_count] the
    number of rows with both the row's [partyName] and the row's
    [current_member]. *)
Theorem add_tenure_party_counts (df : frame) :
  Forall (fun r => is_Some (endYear r) /\ is_Some (current_member r)) df ->
  exists df',
    add_tenure df = inr df' /\
    Forall (fun r' =>
      party_all_time_count r'
      = Some (Z.of_nat (length
          (filter (fun s => partyName s = partyName r') df'))) /\
      party_current_count r'
      = Some (Z.of_nat (length
          (filter (fun s => partyName s = partyName r'
                            /\ current_member s = current_member r') df')))) df'.
Proof.
  intros H.
  assert (He : Forall (fun r => is_Some (endYear r)) df)
    by (eapply Forall_impl; [exact H|]; cbv beta; tauto).
  assert (Hcm : Forall (fun r' => is_Some (current_member r'))
                  (tenure_row (with_duration df) <$> with_duration df)).
  { unfold with_duration, with_column. rewrite <- list_fmap_compose.
    apply Forall_fmap. eapply Forall_impl; [exact H|]. intros r [_ Hr]. exact Hr. }
  destruct (add_tenure_rows df He) as (df' & Hrun & Hlen & Hrows).
  exists df'. split; [exact Hrun|].
  rewrite (add_tenure_closed df He) in Hrun. injection Hrun as Hdf'.
  rewrite Hdf' in Hcm.
  pose proof (proj2 (Forall_and _ _) (conj Hrows Hcm)) as Hboth.
  eapply Forall_impl; [exact Hboth|]. cbv beta.
  intros r' ((_ & _ & _ & _ & _ & Hall & Hcur) & [cm Hr']).
  split; [exact Hall | exact (Hcur cm Hr')].
Qed.

Lemma add_tenure_party_counts_witness :
  exists df',
    add_tenure [current_a; current_b; current_c] = inr df' /\
    party_all_time_count <$> df' = [Some 2; Some 1; Some 2] /\
    party_current_count <$> df' = [Some 2; Some 1; Some 2].
Proof.
  destruct (add_tenure_party_counts [current_a; current_b; current_c])
    as (df' & Hrun & _).
  - repeat (apply List.Forall_cons; [simpl; eauto|]). apply List.Forall_nil.
  - exists df'. split; [exact Hrun|].
    vm_compute in Hrun. injection Hrun as <-. split; reflexivity.
Defined.

(** ** Further properties of [update_endyear] *)

Section update_endyear_more.





End update_endyear_more.





(** ** Further properties of [add_tenure] *)

Section count_facts.
Context {X : Type} (P Q : X -> Prop)
  `{!forall x, Decision (P x)} `{!forall x, Decision (Q x)}.

Lemma filter_length_mono (l : list X) :
  (forall x, x ∈ l -> P x -> Q x) ->
  (length (filter P l) <= length (filter Q l))%nat.
Proof.
  induction l as [|y l IH]; intros Hpq; [reflexivity|].
  assert (IH' : (length (filter P l) <= length (filter Q l))%nat).
  { apply IH. intros x Hx. apply Hpq. right. exact Hx. }
  rewrite !filter_cons.
  destruct (decide (P y)) as [p|p], (decide (Q y)) as [q|q]; simpl; try lia.
  exfalso. apply q, Hpq; [left | exact p].
Qed.

Lemma filter_length_strict (l : list X) (x : X) :
  (forall y, y ∈ l -> P y -> Q y) ->
  x ∈ l -> Q x -> ~ P x ->
  (length (filter P l) < length (filter Q l))%nat.
Proof.
  induction l as [|y l IH]; intros Hpq Hx Hq Hp; [inversion Hx|].
  assert (Hmono : (length (filter P l) <= length (filter Q l))%nat).
  { apply filter_length_mono. intros z Hz. apply Hpq. right. exact Hz. }
  rewrite !filter_cons.
  apply elem_of_cons in Hx as [<-|Hx].
  - destruct (decide (P x)) as [p|_]; [contradiction|].
    destruct (decide (Q x)) as [_|q]; [simpl; lia | contradiction].
  - assert (IH' : (length (filter P l) < length (filter Q l))%nat).
    { apply IH; try assumption. intros z Hz. apply Hpq. right. exact Hz. }
    destruct (decide (P y)) as [p|p], (decide (Q y)) as [q|q]; simpl; try lia.
    exfalso. apply q, Hpq; [left | exact p].
Qed.

End count_facts.

Section competition_bounds.

Lemma outlasts_irrefl (r : row) : ~ outlasts r r.
Proof. unfold outlasts, longer. destruct (duration r); lia. Qed.

Lemma outlasts_trans (r s t : row) : outlasts r s -> outlasts s t -> outlasts r t.
Proof.
  unfold outlasts, longer.
  destruct (duration r), (duration s), (duration t); try tauto; lia.
Qed.

Lemma competition_rank_ge_1 (g : frame) (r : row) : 1 <= competition_rank g r.
Proof. unfold competition_rank. lia. Qed.

Lemma competition_rank_le_length (g : frame) (r : row) :
  r ∈ g -> competition_rank g r <= Z.of_nat (length g).
Proof.
  intros Hr. unfold competition_rank.
  pose proof (length_filter_lt (fun s => outlasts s r) g r Hr (outlasts_irrefl r)).
  lia.
Qed.

Lemma competition_rank_filter_le (P : row -> Prop) `{!forall x, Decision (P x)}
    (g : frame) (r : row) :
  competition_rank (filter P g) r <= competition_rank g r.
Proof.
  unfold competition_rank. rewrite list_filter_filter.
  pose proof (filter_length_mono (fun s => outlasts s r /\ P s)
                (fun s => outlasts s r) g) as Hmono.
  assert (Hle : (length (filter (fun s => outlasts s r /\ P s) g)
                 <= length (filter (fun s => outlasts s r) g))%nat)
    by (apply Hmono; tauto).
  lia.
Qed.

Lemma competition_rank_lt (g : frame) (r s : row) :
  r ∈ g -> outlasts r s -> competition_rank g r < competition_rank g s.
Proof.
  intros Hr Hrs. unfold competition_rank.
  pose proof (filter_length_strict (fun t => outlasts t r) (fun t => outlasts t s)
                g r) as H.
  assert (Hlt : (length (filter (fun t => outlasts t r) g)
                 < length (filter (fun t => outlasts t s) g))%nat).
  { apply H; [|exact Hr|exact Hrs|apply outlasts_irrefl].
    intros t _ Ht. eapply outlasts_trans; eassumption. }
  lia.
Qed.

Lemma competition_rank_ge (g : frame) (r s : row) :
  is_Some (duration r) -> ~ outlasts r s ->
  competition_rank g s <= competition_rank g r.
Proof.
  intros [a Ha] Hrs. unfold competition_rank.
  assert (Hle : (length (filter (fun t => outlasts t s) g)
                 <= length (filter (fun t => outlasts t r) g))%nat).
  { apply filter_length_mono. intros t _. revert Hrs.
    unfold outlasts, longer. rewrite Ha.
    destruct (duration t), (duration s); try tauto; lia. }
  lia.
Qed.

End competition_bounds.

Section add_tenure_more.

Lemma add_tenure_inr (df df' : frame) :
  add_tenure df = inr df' ->
  Forall (fun r => is_Some (endYear r)) df /\
  df' = tenure_row (with_duration df) <$> with_duration df.
Proof.
  intros Hrun.
  destruct (decide (Forall (fun r => is_Some (endYear r)) df)) as [Hall|Hex].
  - split; [exact Hall|]. rewrite (add_tenure_closed df Hall) in Hrun.
    injection Hrun as <-. reflexivity.
  - exfalso. apply not_Forall_Exists in Hex; [|apply _].
    rewrite add_tenure_nan in Hrun; [discriminate|].
    eapply Exists_impl; [exact Hex|]. intros r Hr. simpl in Hr.
    destruct (endYear r); [exfalso; apply Hr; eauto | reflexivity].
Qed.

End add_tenure_more.

(** The cells of one returned row, read against the returned frame. *)
Definition tenure_cells (df' : frame) (r' : row) : Prop :=
  (exists e, endYear r' = Some e /\ duration r' = Some (e - startYear r')) /\
  tenure_all_time r' = Some (competition_rank df' r') /\
  tenure_all_time_party r'
  = Some (competition_rank
            (filter (fun s => partyName s = partyName r') df') r') /\
  tenure_current r'
  = (if is_current r'
     then Some (competition_rank (only_current df') r') else None) /\
  tenure_current_party r'
  = (if is_current r'
     then Some (competition_rank
                  (filter (fun s => partyName s = partyName r')
                          (only_current df')) r')
     else None) /\
  party_all_time_count r'
  = Some (Z.of_nat (length (filter (fun s => partyName s = partyName r') df'))) /\
  (forall cm, current_member r' = Some cm ->
     party_current_count r'
     = Some (Z.of_nat (length
         (filter (fun s => partyName s = partyName r'
                           /\ current_member s = current_member r') df')))).

Lemma add_tenure_cells (df df' : frame) :
  add_tenure df = inr df' -> Forall (tenure_cells df') df'.
Proof.
  intros Hrun. pose proof Hrun as Hinv.
  apply add_tenure_inr in Hinv as [Hall _].
  destruct (add_tenure_rows df Hall) as (df'' & Hrun' & _ & Hrows).
  rewrite Hrun in Hrun'. injection Hrun' as <-. exact Hrows.
Qed.

Definition sample_frame : frame := [current_a; current_b; current_c].

Definition sample_tenure : frame :=
  Eval vm_compute in
    match add_tenure sample_frame with
    | inr df' => df'
    | inl _ => []
    end.


(** X4. Bounds on the ranks [add_tenure] assigns.  On every returned row the
    party rank is at most the all-time rank, which is at most the number of
    rows; a current rank is at most the all-time rank, the current party rank
    is at most both the current rank and the party rank; all ranks start
    at 1. *)
Theorem add_tenure_rank_bounds (df df' : frame) :
  add_tenure df = inr df' ->
  Forall (fun r' =>
    exists a p,
      tenure_all_time r' = Some a /\ tenure_all_time_party r' = Some p /\
      1 <= p /\ p <= a /\ a <= Z.of_nat (length df') /\
      (forall c, tenure_current r' = Some c -> 1 <= c /\ c <= a) /\
      (forall c cp, tenure_current r' = Some c ->
                    tenure_current_party r' = Some cp ->
                    1 <= cp /\ cp <= c /\ cp <= p)) df'.
Proof.
  intros Hrun. pose proof (add_tenure_cells df df' Hrun) as Hrows.
  apply Forall_forall. intros r' Hr'.
  pose proof (proj1 (Forall_forall _ _) Hrows r' Hr')
    as (_ & Ha & Hp & Hc & Hcp & _).
  eexists _, _. split; [exact Ha|]. split; [exact Hp|].
  split; [apply competition_rank_ge_1|].
  split; [apply competition_rank_filter_le|].
  split; [apply competition_rank_le_length, Hr'|].
  split.
  - intros c Hcur. rewrite Hc in Hcur.
    destruct (is_current r'); [|discriminate]. injection Hcur as <-.
    split; [apply competition_rank_ge_1 | apply competition_rank_filter_le].
  - intros c cp Hcur Hcurp. rewrite Hc in Hcur. rewrite Hcp in Hcurp.
    destruct (is_current r'); [|discriminate].
    injection Hcur as <-. injection Hcurp as <-.
    split; [apply competition_rank_ge_1|].
    split; [apply competition_rank_filter_le|].
    unfold only_current. rewrite list_filter_filter.
    rewrite (filter_ext_eq _
               (fun s => current_member s = Some "yes"%string
                         /\ partyName s = partyName r')) by (intros; tauto).
    rewrite <- list_filter_filter. apply competition_rank_filter_le.
Qed.

Lemma add_tenure_rank_bounds_witness :
  Forall (fun r' =>
    exists a p,
      tenure_all_time r' = Some a /\ tenure_all_time_party r' = Some p /\
      1 <= p /\ p <= a /\ a <= Z.of_nat (length sample_tenure) /\
      (forall c, tenure_current r' = Some c -> 1 <= c /\ c <= a) /\
      (forall c cp, tenure_current r' = Some c ->
                    tenure_current_party r' = Some cp ->
                    1 <= cp /\ cp <= c /\ cp <= p)) sample_tenure.
Proof.
  apply (add_tenure_rank_bounds sample_frame sample_tenure).
  vm_compute. reflexivity.
Defined.

(** X5. A rank never exceeds the size of its group: on every returned row
    [tenure_all_time_party] is at most [party_all_time_count], and on a
    current row [tenure_current_party] is at most [party_current_count]. *)
Theorem add_tenure_rank_within_count (df df' : frame) :
  add_tenure df = inr df' ->
  Forall (fun r' =>
    (forall p n, tenure_all_time_party r' = Some p ->
                 party_all_time_count r' = Some n -> 1 <= p /\ p <= n) /\
    (forall cp n, tenure_current_party r' = Some cp ->
                  party_current_count r' = Some n -> 1 <= cp /\ cp <= n)) df'.
Proof.
  intros Hrun. pose proof (add_tenure_cells df df' Hrun) as Hrows.
  apply Forall_forall. intros r' Hr'.
  pose proof (proj1 (Forall_forall _ _) Hrows r' Hr')
    as (_ & _ & Hp & _ & Hcp & Hn & Hcn).
  split.
  - intros p n Hp' Hn'. rewrite Hp in Hp'. rewrite Hn in Hn'.
    injection Hp' as <-. injection Hn' as <-.
    split; [apply competition_rank_ge_1|].
    apply competition_rank_le_length, list_elem_of_filter. split; [reflexivity|exact Hr'].
  - intros cp n Hcp' Hcn'. rewrite Hcp in Hcp'.
    destruct (is_current r') eqn:Hcur; [|discriminate].
    apply bool_decide_eq_true in Hcur.
    rewrite (Hcn _ Hcur) in Hcn'. injection Hcp' as <-. injection Hcn' as <-.
    split; [apply competition_rank_ge_1|].
    unfold only_current. rewrite list_filter_filter, Hcur.
    apply competition_rank_le_length, list_elem_of_filter.
    split; [split; [reflexivity | exact Hcur] | exact Hr'].
Qed.

Lemma add_tenure_rank_within_count_witness :
  Forall (fun r' =>
    (forall p n, tenure_all_time_party r' = Some p ->
                 party_all_time_count r' = Some n -> 1 <= p /\ p <= n) /\
    (forall cp n, tenure_current_party r' = Some cp ->
                  party_current_count r' = Some n -> 1 <= cp /\ cp <= n))
    sample_tenure.
Proof.
  apply (add_tenure_rank_within_count sample_frame sample_tenure).
  vm_compute. reflexivity.
Defined.

(** X6. The all-time rank orders the rows exactly as their durations do:
    of two returned rows, one has the smaller [tenure_all_time] if and only
    if it has the longer [duration], and the two ranks are equal if and only
    if the durations are. *)
Theorem add_tenure_rank_order (df df' : frame) :
  add_tenure df = inr df' ->
  forall r' s', r' ∈ df' -> s' ∈ df' ->
    exists a b x y,
      tenure_all_time r' = Some a /\ tenure_all_time s' = Some b /\
      duration r' = Some x /\ duration s' = Some y /\
      (a < b <-> y < x) /\ (a = b <-> x = y).
Proof.
  intros Hrun r' s' Hr' Hs'.
  pose proof (add_tenure_cells df df' Hrun) as Hrows.
  pose proof (proj1 (Forall_forall _ _) Hrows r' Hr')
    as ((er & _ & Hdr) & Har & _).
  pose proof (proj1 (Forall_forall _ _) Hrows s' Hs')
    as ((es & _ & Hds) & Has & _).
  eexists _, _, _, _. split; [exact Har|]. split; [exact Has|].
  split; [exact Hdr|]. split; [exact Hds|].
  set (x := er - startYear r') in *. set (y := es - startYear s') in *.
  assert (Hlt : y < x -> competition_rank df' r' < competition_rank df' s').
  { intros Hxy. apply competition_rank_lt; [exact Hr'|].
    unfold outlasts, longer. rewrite Hdr, Hds. exact Hxy. }
  assert (Hgt : x < y -> competition_rank df' s' < competition_rank df' r').
  { intros Hxy. apply competition_rank_lt; [exact Hs'|].
    unfold outlasts, longer. rewrite Hdr, Hds. exact Hxy. }
  assert (Heq : x = y -> competition_rank df' r' = competition_rank df' s').
  { intros Hxy. apply competition_rank_tie. rewrite Hdr, Hds, Hxy. reflexivity. }
  split; split.
  - intros Hab. destruct (Z.lt_trichotomy x y) as [H1|[H1|H1]];
      [apply Hgt in H1 | apply Heq in H1 | ]; lia.
  - exact Hlt.
  - intros Hab. destruct (Z.lt_trichotomy x y) as [H1|[H1|H1]];
      [apply Hgt in H1 | | apply Hlt in H1]; lia.
  - exact Heq.
Qed.

Lemma add_tenure_rank_order_witness :
  exists a b x y,
    tenure_all_time (tenure_row (with_duration sample_frame)
                       (set_duration current_a (Some 10))) = Some a /\
    tenure_all_time (tenure_row (with_duration sample_frame)
                       (set_duration current_c (Some 8))) = Some b /\
    duration (tenure_row (with_duration sample_frame)
                (set_duration current_a (Some 10))) = Some x /\
    duration (tenure_row (with_duration sample_frame)
                (set_duration current_c (Some 8))) = Some y /\
    (a < b <-> y < x) /\ (a = b <-> x = y).
Proof.
  apply (add_tenure_rank_order sample_frame sample_tenure).
  - vm_compute. reflexivity.
  - vm_compute. apply list_elem_of_here.
  - vm_compute. apply list_elem_of_further, list_elem_of_further, list_elem_of_here.
Defined.

Section add_tenure_again.

Lemma tenure_row_keeps (d : frame) : keeps_keys (tenure_row d).
Proof. intros s. repeat split; reflexivity. Qed.

Lemma tenure_row_fmap (d : frame) (h : row -> row) (r : row) :
  keeps_keys h ->
  (forall s, bioguideID (h s) = bioguideID s /\ name (h s) = name s /\
             state (h s) = state s /\ chamber (h s) = chamber s /\
             startYear (h s) = startYear s /\ endYear (h s) = endYear s /\
             extra (h s) = extra s) ->
  tenure_row (h <$> d) (h r) = tenure_row d r.
Proof.
  intros Hk Hb. unfold tenure_row.
  destruct (Hk r) as (Hp & Hc & Hd).
  destruct (Hb r) as (H1 & H2 & H3 & H4 & H5 & H6 & H7).
  rewrite H1, H2, H3, H4, H5, H6, H7, Hp, Hc, Hd.
  rewrite (durations_fmap h d Hk).
  rewrite !groupby_rank_fmap, !groupby_count_fmap
    by first [ exact by_party_keys | exact by_current_keys
             | exact by_current_party_keys | exact by_party_current_keys
             | exact Hk ].
  assert (Hrank : forall {K} `{EqDecision K} (key : row -> option K),
            key_of_keys key -> groupby_rank key d (h r) = groupby_rank key d r).
  { intros K ? key Hkey. unfold groupby_rank. rewrite (Hkey (h r) r Hp Hc), Hd.
    reflexivity. }
  assert (Hcount : forall {K} `{EqDecision K} (key : row -> option K),
            key_of_keys key -> groupby_count key d (h r) = groupby_count key d r).
  { intros K ? key Hkey. unfold groupby_count. rewrite (Hkey (h r) r Hp Hc).
    reflexivity. }
  rewrite (Hrank _ _ by_party by_party_keys),
          (Hrank _ _ by_current by_current_keys),
          (Hrank _ _ by_current_party by_current_party_keys),
          (Hcount _ _ by_party by_party_keys),
          (Hcount _ _ by_party_current by_party_current_keys).
  unfold is_current. rewrite Hc. reflexivity.
Qed.

End add_tenure_again.

(** X7. [add_tenure] is idempotent: applied to a frame it has returned, it
    returns that frame again. *)
Theorem add_tenure_idempotent (df df' : frame) :
  add_tenure df = inr df' -> add_tenure df' = inr df'.
Proof.
  intros Hrun. apply add_tenure_inr in Hrun as [Hall ->].
  set (d := with_duration df). set (h := tenure_row d).
  assert (Hdur : Forall (fun r => duration r
                                  = (e ← endYear r; Some (e - startYear r))) d).
  { unfold d, with_duration, with_column. apply Forall_fmap, Forall_forall.
    intros r _. reflexivity. }
  assert (Hwd : with_duration (h <$> d) = h <$> d).
  { unfold with_duration, with_column. rewrite <- list_fmap_compose.
    apply list_fmap_ext. intros i r Hr. unfold compose.
    apply (Forall_lookup_1 _ _ _ _ Hdur) in Hr.
    change (endYear (h r)) with (endYear r).
    change (startYear (h r)) with (startYear r).
    rewrite <- Hr. reflexivity. }
  rewrite add_tenure_closed.
  - rewrite Hwd. f_equal. rewrite <- list_fmap_compose.
    apply list_fmap_ext. intros i r _. unfold compose.
    apply tenure_row_fmap; [apply tenure_row_keeps|].
    intros s. repeat split; reflexivity.
  - apply Forall_fmap. unfold d, with_duration, with_column.
    apply Forall_fmap. eapply Forall_impl; [exact Hall|]. intros r Hr. exact Hr.
Qed.

Lemma add_tenure_idempotent_witness :
  add_tenure sample_tenure = inr sample_tenure.
Proof.
  apply (add_tenure_idempotent sample_frame sample_tenure).
  vm_compute. reflexivity.
Defined.

(** ** The place of [normalize_name] in the pipeline *)

Section normalize_name_commutes.

Lemma tenure_row_rename (d : frame) (f : string -> string) (r : row) :
  tenure_row ((fun s => set_name s (f (name s))) <$> d) (set_name r (f (name r)))
  = set_name (tenure_row d r) (f (name r)).
Proof.
  set (h := fun s => set_name s (f (name s))).
  assert (Hk : keeps_keys h) by (intros s; repeat split; reflexivity).
  unfold tenure_row.
  rewrite (durations_fmap h d Hk).
  rewrite !groupby_rank_fmap, !groupby_count_fmap
    by first [ exact by_party_keys | exact by_current_keys
             | exact by_current_party_keys | exact by_party_current_keys
             | exact Hk ].
  reflexivity.
Qed.

Lemma with_int_column_rename set cell (f : string -> string) (df : frame) :
  (forall r v, set (set_name r (f (name r))) v
               = set_name (set r v) (f (name (set r v)))) ->
  (forall r, cell (set_name r (f (name r))) = cell r) ->
  with_int_column set cell ((fun s => set_name s (f (name s))) <$> df)
  = (df' ← with_int_column set cell df;
     mret ((fun s => set_name s (f (name s))) <$> df')).
Proof.
  intros Hset Hcell.
  destruct (decide (Forall (fun r => is_Some (cell r)) df)) as [Hall|Hex].
  - rewrite (with_int_column_ok set cell df Hall).
    rewrite with_int_column_ok.
    + unfold with_column, mbind, result_bind, bind, mret, result_ret, ret.
      f_equal. rewrite <- !list_fmap_compose. apply list_fmap_ext.
      intros i r _. unfold compose. rewrite Hcell. apply Hset.
    + apply Forall_fmap. eapply Forall_impl; [exact Hall|].
      intros r Hr. unfold compose. rewrite Hcell. exact Hr.
  - apply not_Forall_Exists in Hex; [|apply _].
    assert (Hnan : Exists (fun r => cell r = None) df).
    { eapply Exists_impl; [exact Hex|]. intros r Hr. simpl in Hr.
      destruct (cell r); [exfalso; apply Hr; eauto | reflexivity]. }
    rewrite (with_int_column_nan set cell df Hnan).
    rewrite with_int_column_nan; [reflexivity|].
    apply Exists_fmap. eapply Exists_impl; [exact Hnan|].
    intros r Hr. unfold compose. rewrite Hcell. exact Hr.
Qed.

End normalize_name_commutes.

(** X8. [normalize_name] can run at any point of the pipeline: it commutes
    with [update_endyear], with [add_tenure] and with [only_current], errors
    included, so [modify_reps] returns the same as the pipeline that
    normalizes the names first. *)
Theorem normalize_name_anywhere (today : date) (df : frame) :
  update_endyear today (normalize_name df)
  = (df' ← update_endyear today df; mret (normalize_name df')) /\
  add_tenure (normalize_name df)
  = (df' ← add_tenure df; mret (normalize_name df')) /\
  only_current (normalize_name df) = normalize_name (only_current df) /\
  modify_reps today df
  = (df1 ← update_endyear today (normalize_name df);
     df2 ← add_tenure df1;
     mret (only_current df2)).
Proof.
  assert (Hupd : forall df0,
            update_endyear today (normalize_name df0)
            = (df' ← update_endyear today df0; mret (normalize_name df'))).
  { intros df0. rewrite !update_endyear_rows.
    unfold normalize_name, with_column at 1.
    rewrite <- list_fmap_compose.
    rewrite (list_fmap_ext _
               ((fun s => set_name s (normalize_name_str (name s)))
                ∘ fill_row (year today)) df0)
      by (intros; reflexivity).
    rewrite list_fmap_compose.
    rewrite (with_int_column_rename set_endYear endYear normalize_name_str)
      by (intros; reflexivity).
    reflexivity. }
  assert (Hadd : forall df0,
            add_tenure (normalize_name df0)
            = (df' ← add_tenure df0; mret (normalize_name df'))).
  { intros df0.
    destruct (decide (Forall (fun r => is_Some (endYear r)) df0)) as [Hall|Hex].
    - rewrite (add_tenure_closed df0 Hall).
      rewrite add_tenure_closed.
      + unfold mbind, result_bind, bind, mret, result_ret, ret. f_equal.
        assert (Hwd : with_duration (normalize_name df0)
                      = normalize_name (with_duration df0)).
        { unfold normalize_name, with_duration, with_column.
          rewrite <- !list_fmap_compose. apply list_fmap_ext.
          intros i r _. reflexivity. }
        rewrite Hwd. set (d := with_duration df0).
        unfold normalize_name, with_column.
        rewrite <- !list_fmap_compose. apply list_fmap_ext.
        intros i r _. unfold compose.
        apply (tenure_row_rename d normalize_name_str r).
      + unfold normalize_name, with_column. apply Forall_fmap.
        eapply Forall_impl; [exact Hall|]. intros r Hr. exact Hr.
    - apply not_Forall_Exists in Hex; [|apply _].
      assert (Hnan : Exists (fun r => endYear r = None) df0).
      { eapply Exists_impl; [exact Hex|]. intros r Hr. simpl in Hr.
        destruct (endYear r); [exfalso; apply Hr; eauto | reflexivity]. }
      rewrite (add_tenure_nan df0 Hnan).
      rewrite add_tenure_nan; [reflexivity|].
      unfold normalize_name, with_column. apply Exists_fmap.
      eapply Exists_impl; [exact Hnan|]. intros r Hr. exact Hr. }
  assert (Hcur : forall df0,
            only_current (normalize_name df0) = normalize_name (only_current df0)).
  { intros df0. unfold only_current, normalize_name, with_column.
    apply filter_through. intros s. reflexivity. }
  split; [apply Hupd|]. split; [apply Hadd|]. split; [apply Hcur|].
  unfold modify_reps. rewrite Hupd.
  destruct (update_endyear today df) as [e|df1]; [reflexivity|].
  unfold mbind, result_bind, bind, mret, result_ret, ret in *.
  rewrite Hadd.
  destruct (add_tenure df1) as [e|df2]; [reflexivity|].
  rewrite Hcur. reflexivity.
Qed.

(** ** [modify_reps] end to end *)





(** ** Further properties of [mod_json] *)

Section mod_json_more.

Lemma mapM_fixed {A} (f : A -> result A) (l l' : list A) :
  (forall x y, f x = inr y -> f y = inr y) ->
  mapM f l = inr l' -> mapM f l' = inr l'.
Proof.
  intros Hf. revert l'. induction l as [|x l IH]; intros l' Hrun.
  - injection Hrun as <-. reflexivity.
  - simpl in Hrun. destruct (f x) as [e|y] eqn:Hx; [discriminate|].
    simpl in Hrun. destruct (mapM f l) as [e|ys] eqn:Hl; [discriminate|].
    injection Hrun as <-. simpl.
    rewrite (Hf x y Hx). simpl. rewrite (IH ys eq_refl). reflexivity.
Qed.


Lemma mod_rep_fixed (rep rep' : gmap string pyval) :
  mod_rep rep = inr rep' -> mod_rep rep' = inr rep'.
Proof.
  unfold mod_rep, getitem, py_lower, py_add_int.
  destruct (rep !! "endYear") as [v|] eqn:He.
  - intros [= <-]. rewrite He. reflexivity.
  - destruct (rep !! "chamber") as [[z|c|]|] eqn:Hc; try discriminate.
    unfold mbind, result_bind, bind, ret, raise.
    destruct (decide (str_lower c = str_lower "Senate")) as [Hs|Hs].
    + destruct (rep !! "startYear") as [[y|s|]|]; try discriminate.
      intros [= <-]. rewrite lookup_insert_eq. reflexivity.
    + destruct (decide (str_lower c = str_lower "House of Representatives")) as [Hh|Hh].
      * destruct (rep !! "startYear") as [[y|s|]|]; try discriminate.
        intros [= <-]. rewrite lookup_insert_eq. reflexivity.
      * intros [= <-]. rewrite He, Hc.
        destruct (decide (str_lower c = str_lower "Senate")); [contradiction|].
        destruct (decide (str_lower c = str_lower "House of Representatives"));
          [contradiction|]. reflexivity.
Qed.

End mod_json_more.

(** X10. [mod_json] is idempotent: run on a list it has returned, it
    returns that list unchanged. *)
Theorem mod_json_idempotent (reps reps' : list (gmap string pyval)) :
  mod_json reps = inr reps' -> mod_json reps' = inr reps'.
Proof. apply mapM_fixed. apply mod_rep_fixed. Qed.

Lemma mod_json_idempotent_witness :
  mod_json [<["endYear" := PyInt 2021]> dict_house;
            <["endYear" := PyInt 2027]> dict_senate; dict_former; dict_delegate]
  = inr [<["endYear" := PyInt 2021]> dict_house;
         <["endYear" := PyInt 2027]> dict_senate; dict_former; dict_delegate].
Proof.
  apply (mod_json_idempotent [dict_house; dict_senate; dict_former; dict_delegate]).
  vm_compute. reflexivity.
Defined.




(** * [gen_reps_json.py]: flattening the members into term rows *)

(** ** [flatten_user_terms] *)
Module GenRepsJson.

(** A member as the API delivers it and the docstring of
    [flatten_user_terms] lists it: scalar entries ([bioguideId], [name],
    [partyName], [state], [updateDate], [url]), an optional [depiction]
    dictionary, and an optional [terms] dictionary whose optional [item] is
    the list of term dictionaries. *)
Record user : Type := mkUser {
  entries : gmap string pyval;
  depiction : option (gmap string pyval);
  terms : option (option (list (gmap string pyval)))
}.

(** [user_dict.get(k)]: [None] when the key is missing. *)
Definition get (u : user) (k : string) : pyval :=
  default PyNone (entries u !! k).

(** [d.update(other)]: the entries of [other] replace those of [d]. *)
Definition dict_update (d other : gmap string pyval) : gmap string pyval :=
  other ∪ d.

(** [user_dict.get('terms', {}).get('item', [])] *)
Definition terms_list (u : user) : list (gmap string pyval) :=
  match terms u with
  | Some (Some items) => items
  | Some None => []
  | None => []
  end.

(** [parent_fields], after [parent_fields.update(depiction_container)]. *)
Definition parent_fields (u : user) : gmap string pyval :=
  let parent_fields : gmap string pyval :=
    {[ "bioguideID" := get u "bioguideId";
       "name" := get u "name";
       "partyName" := get u "partyName";
       "state" := get u "state";
       "url" := get u "url" ]} in
  dict_update parent_fields (default ∅ (depiction u)).

(** The inner loop: one row per term. *)
Definition flatten_user (u : user) : list (gmap string pyval) :=
  (fun term => dict_update (parent_fields u) term) <$> terms_list u.

Definition flatten_user_terms (users_list : list user)
  : list (gmap string pyval) :=
  users_list ≫= flatten_user.

End GenRepsJson.

Import GenRepsJson.

Definition user_two_terms : user :=
  mkUser {[ "bioguideId" := PyStr "C000243"; "name" := PyStr "Doe, Jane";
            "partyName" := PyStr "Democratic"; "state" := PyStr "Ohio" ]}
         (Some {[ "imageUrl" := PyStr "https://www.congress.gov/img/member/c000243_200.jpg" ]})
         (Some (Some [ {[ "chamber" := PyStr "House of Representatives";
                          "startYear" := PyInt 1993; "endYear" := PyInt 2011 ]};
                       {[ "chamber" := PyStr "Senate"; "startYear" := PyInt 2011 ]} ])).

Definition user_no_terms : user :=
  mkUser {[ "bioguideId" := PyStr "N000001"; "name" := PyStr "Noe, Ned" ]}
         None None.

Section flatten_facts.


Lemma flatten_user_terms_elem (users : list user) (row : gmap string pyval) :
  row ∈ flatten_user_terms users <->
  exists u term, u ∈ users /\ term ∈ terms_list u /\
                 row = dict_update (parent_fields u) term.
Proof.
  unfold flatten_user_terms. rewrite list_elem_of_bind. split.
  - intros (u & Hrow & Hu). unfold flatten_user in Hrow.
    apply list_elem_of_fmap in Hrow as (term & -> & Hterm). eauto.
  - intros (u & term & Hu & Hterm & ->). exists u. split; [|exact Hu].
    unfold flatten_user. apply list_elem_of_fmap. eauto.
Qed.

End flatten_facts.


(** Lookup in a dictionary literal extended by two updates. *)
Definition first_of (a b c : option pyval) : option pyval :=
  match a with
  | Some v => Some v
  | None => match b with
            | Some v => Some v
            | None => c
            end
  end.

(** X13. What a row of [flatten_user_terms] holds.  Every row comes from
    one member and one of its terms; under each key it holds the term's
    value if the term has the key, else the depiction's value if the
    depiction has it, else the member's value for the five keys
    [bioguideID], [name], [partyName], [state], [url] ([None] where the
    member lacks the entry; [bioguideID] is read from the entry
    [bioguideId]), and nothing otherwise.  So the five keys are always
    present, and [endYear] is missing from the row exactly when it is missing
    from both the term and the depiction. *)
Theorem flatten_user_terms_lookup (users : list user) (row : gmap string pyval) :
  row ∈ flatten_user_terms users ->
  exists u term,
    u ∈ users /\ term ∈ terms_list u /\
    (forall k,
       row !! k
       = first_of (term !! k) (default ∅ (depiction u) !! k)
           (if decide (k = "bioguideID") then Some (get u "bioguideId")
            else if decide (k ∈ ["name"; "partyName"; "state"; "url"])
                 then Some (get u k) else None)) /\
    Forall (fun k => is_Some (row !! k))
      ["bioguideID"; "name"; "partyName"; "state"; "url"] /\
    (row !! "endYear" = None <->
     term !! "endYear" = None /\ default ∅ (depiction u) !! "endYear" = None).
Proof.
  intros Hrow. apply flatten_user_terms_elem in Hrow as (u & term & Hu & Hterm & ->).
  exists u, term. split; [exact Hu|]. split; [exact Hterm|].
  assert (Hlook : forall k,
            dict_update (parent_fields u) term !! k
            = first_of (term !! k) (default ∅ (depiction u) !! k)
                (if decide (k = "bioguideID") then Some (get u "bioguideId")
                 else if decide (k ∈ ["name"; "partyName"; "state"; "url"])
                      then Some (get u k) else None)).
  { intros k.
    assert (Hbase :
      ({[ "bioguideID" := get u "bioguideId"; "name" := get u "name";
          "partyName" := get u "partyName"; "state" := get u "state";
          "url" := get u "url" ]} : gmap string pyval) !! k
      = (if decide (k = "bioguideID") then Some (get u "bioguideId")
         else if decide (k ∈ ["name"; "partyName"; "state"; "url"])
              then Some (get u k) else None)).
    { destruct (decide (k = "bioguideID")) as [->|H1]; [reflexivity|].
      rewrite lookup_insert_ne by congruence.
      destruct (decide (k = "name")) as [->|H2]; [reflexivity|].
      rewrite lookup_insert_ne by congruence.
      destruct (decide (k = "partyName")) as [->|H3]; [reflexivity|].
      rewrite lookup_insert_ne by congruence.
      destruct (decide (k = "state")) as [->|H4]; [reflexivity|].
      rewrite lookup_insert_ne by congruence.
      destruct (decide (k = "url")) as [->|H5]; [reflexivity|].
      rewrite lookup_singleton_ne by congruence.
      rewrite decide_False; [reflexivity|].
      rewrite !elem_of_cons, elem_of_nil. tauto. }
    unfold dict_update, parent_fields, dict_update, first_of.
    rewrite !lookup_union, Hbase.
    destruct (term !! k), (default ∅ (depiction u) !! k),
      (decide (k = "bioguideID")),
      (decide (k ∈ ["name"; "partyName"; "state"; "url"])); reflexivity. }
  split; [exact Hlook|]. split.
  - repeat (apply List.Forall_cons;
            [rewrite Hlook; unfold first_of;
             destruct (term !! _); [eauto|];
             destruct (default ∅ (depiction u) !! _); [eauto|];
             simpl; eauto|]).
    apply List.Forall_nil.
  - rewrite Hlook. unfold first_of.
    destruct (term !! "endYear"), (default ∅ (depiction u) !! "endYear");
      simpl; split; try tauto; try discriminate; intros [? ?]; discriminate.
Qed.

Lemma flatten_user_terms_lookup_witness :
  exists u term,
    u ∈ [user_no_terms; user_two_terms] /\ term ∈ terms_list u /\
    (forall k,
       dict_update (parent_fields user_two_terms)
         {[ "chamber" := PyStr "Senate"; "startYear" := PyInt 2011 ]} !! k
       = first_of (term !! k) (default ∅ (depiction u) !! k)
           (if decide (k = "bioguideID") then Some (get u "bioguideId")
            else if decide (k ∈ ["name"; "partyName"; "state"; "url"])
                 then Some (get u k) else None)) /\
    Forall (fun k => is_Some
              (dict_update (parent_fields user_two_terms)
                 {[ "chamber" := PyStr "Senate"; "startYear" := PyInt 2011 ]} !! k))
      ["bioguideID"; "name"; "partyName"; "state"; "url"] /\
    (dict_update (parent_fields user_two_terms)
       {[ "chamber" := PyStr "Senate"; "startYear" := PyInt 2011 ]} !! "endYear" = None
     <-> term !! "endYear" = None /\ default ∅ (depiction u) !! "endYear" = None).
Proof.
  apply (flatten_user_terms_lookup [user_no_terms; user_two_terms]).
  apply flatten_user_terms_elem. exists user_two_terms. eexists.
  split; [apply list_elem_of_further, list_elem_of_here|].
  split; [apply list_elem_of_further, list_elem_of_here | reflexivity].
Defined.

(** * Card text layout ([gen_cards.py])

    [draw_wrapped_text] first computes the list [all_lines] of the lines to
    draw, then draws them.  The computation of [all_lines] is embedded here;
    the drawing itself is I/O on the image.

    Strings are sequences of bytes (UTF-8).  The separators searched for
    (newline, space, the two markers) are ASCII, and an ASCII byte never
    occurs inside the encoding of another character, so splitting and
    replacing on bytes agrees with Python's on code points. *)

Module GenCards.

(** [s.replace(old, new)] for a non-empty [old]: scan left to right and
    replace every occurrence that does not overlap an earlier one. *)
Fixpoint replace_from (old new : string) (skip : nat) (s : string) : string :=
  match s with
  | EmptyString => EmptyString
  | String c s' =>
      match skip with
      | S k => replace_from old new k s'
      | O =>
          if String.prefix old s
          then String.append new
                 (replace_from old new (Nat.pred (String.length old)) s')
          else String c (replace_from old new O s')
      end
  end.

Definition str_replace (old new s : string) : string :=
  replace_from old new O s.

(** The one-character string written ['\n'] in the source. *)
Definition newline : string := String "010"%char EmptyString.

Definition NEWLINE : string := "||NEWLINE||".
Definition MANUAL_NEWLINE : string := "||MANUAL_NEWLINE||".

(** [text.replace('\n', '||NEWLINE||').split('||NEWLINE||')] *)
Definition paragraphs (text : string) : list string :=
  str_split NEWLINE (str_replace newline NEWLINE text).

Section wrapping.

(** The test [line_width > max_width] of the source, where [line_width] is
    the width of the bounding box that [draw_context.textbbox] reports for
    the line in the given font. *)
Variable too_wide : string -> bool.

(** One round of [for word in words], on the pair [(lines, line_words)]. *)
Definition wrap_word (st : list string * list string) (word : string)
  : list string * list string :=
  let '(lines, line_words) := st in
  let current_line := str_join " " (line_words ++ [word]) in
  if too_wide current_line && negb (bool_decide (line_words = []))
  then (lines ++ [str_join " " line_words], [word])
  else (lines, line_words ++ [word]).

(** The loop over the words of one paragraph and the closing
    [if line_words: lines.append(' '.join(line_words))]. *)
Definition wrap_words (words : list string) : list string :=
  let '(lines, line_words) := foldl wrap_word ([], []) words in
  if bool_decide (line_words = []) then lines
  else lines ++ [str_join " " line_words].

Definition wrap_paragraph (para : string) : list string :=
  wrap_words (str_split " " para).

(** [if all_lines and all_lines[-1] == "||MANUAL_NEWLINE||": all_lines.pop()] *)
Definition pop_marker (all_lines : list string) : list string :=
  match last all_lines with
  | Some line =>
      if String.eqb line MANUAL_NEWLINE then removelast all_lines
      else all_lines
  | None => all_lines
  end.

(** The value of [all_lines] when the drawing loop starts. *)
Definition all_lines (text : string) : list string :=
  pop_marker
    (foldl (fun all_lines para =>
              (all_lines ++ wrap_paragraph para) ++ [MANUAL_NEWLINE])
       [] (paragraphs text)).

End wrapping.

End GenCards.

Import GenCards.

(** ** Facts on [split], [join] and [replace] *)

Section string_facts.

Lemma append_assoc (a b c : string) :
  String.append (String.append a b) c = String.append a (String.append b c).
Proof.
  induction a as [|x a IH]; [reflexivity|].
  rewrite !append_cons, IH. reflexivity.
Qed.

Lemma split_from_nonempty (sep : string) (skip : nat) (tok s : string) :
  split_from sep skip tok s <> [].
Proof.
  revert skip tok. induction s as [|c s IH]; intros skip tok.
  - discriminate.
  - cbn [split_from]. destruct skip as [|k]; [|apply IH].
    destruct (String.prefix sep (String c s)); [discriminate|apply IH].
Qed.

Lemma str_join_cons (sep t : string) (ts : list string) :
  ts <> [] ->
  str_join sep (t :: ts) = String.append t (String.append sep (str_join sep ts)).
Proof. destruct ts; [congruence|reflexivity]. Qed.

Lemma str_join_app (sep : string) (a b : list string) :
  a <> [] -> b <> [] ->
  str_join sep (a ++ b)
  = String.append (str_join sep a) (String.append sep (str_join sep b)).
Proof.
  intros Ha Hb. induction a as [|t a IH]; [congruence|].
  destruct a as [|t2 a].
  - change ([t] ++ b) with (t :: b). rewrite str_join_cons by exact Hb.
    reflexivity.
  - change ((t :: t2 :: a) ++ b) with (t :: ((t2 :: a) ++ b)).
    rewrite str_join_cons by discriminate.
    rewrite IH by discriminate.
    rewrite (str_join_cons sep t (t2 :: a)) by discriminate.
    rewrite !append_assoc. reflexivity.
Qed.

Lemma str_join_snoc (sep : string) (a : list string) (t : string) :
  a <> [] ->
  str_join sep (a ++ [t])
  = String.append (str_join sep a) (String.append sep t).
Proof. intros Ha. rewrite str_join_app by (exact Ha || discriminate). reflexivity. Qed.

(** Joining the joined groups is joining all the words. *)
Lemma str_join_concat (sep : string) (gs : list (list string)) :
  Forall (fun g => g <> []) gs ->
  str_join sep (str_join sep <$> gs) = str_join sep (concat gs).
Proof.
  induction gs as [|g gs IH]; intros Hne; [reflexivity|].
  inversion Hne as [|? ? Hg Hgs]; subst.
  destruct gs as [|g2 gs].
  - cbn [fmap list_fmap concat]. rewrite app_nil_r. reflexivity.
  - change (str_join sep <$> g :: g2 :: gs)
      with (str_join sep g :: (str_join sep <$> g2 :: gs)).
    rewrite str_join_cons by discriminate.
    rewrite IH by exact Hgs.
    change (concat (g :: g2 :: gs)) with (g ++ concat (g2 :: gs)).
    rewrite str_join_app; [reflexivity|exact Hg|].
    inversion Hgs; subst. cbn [concat]. destruct g2; [congruence|discriminate].
Qed.

(** Splitting on one character and joining with it again gives the string
    back. *)
Lemma join_split_from (c : ascii) (tok s : string) :
  str_join (String c EmptyString) (split_from (String c EmptyString) O tok s)
  = String.append tok s.
Proof.
  revert tok. induction s as [|a s IH]; intros tok.
  - cbn [split_from str_join]. rewrite append_nil_r. reflexivity.
  - cbn [split_from]. rewrite prefix_cons, prefix_nil.
    destruct (ascii_dec c a) as [->|Hne].
    + cbn [String.length Nat.pred].
      rewrite str_join_cons by apply split_from_nonempty.
      rewrite IH, append_nil_l, append_cons, append_nil_l. reflexivity.
    + rewrite IH, append_snoc. reflexivity.
Qed.

Lemma join_split (c : ascii) (s : string) :
  str_join (String c EmptyString) (str_split (String c EmptyString) s) = s.
Proof. unfold str_split. rewrite join_split_from, append_nil_l. reflexivity. Qed.

Lemma contains_app (c : ascii) (a b : string) :
  contains (String c EmptyString) (String.append a b)
  = contains (String c EmptyString) a || contains (String c EmptyString) b.
Proof.
  induction a as [|x a IH]; [reflexivity|].
  rewrite append_cons. cbn [contains]. rewrite IH, !prefix_cons, !prefix_nil.
  destruct (ascii_dec c x); reflexivity.
Qed.

Lemma contains_join (c : ascii) (sep : string) (ls : list string) :
  contains (String c EmptyString) (str_join sep ls) = false ->
  Forall (fun l => contains (String c EmptyString) l = false) ls.
Proof.
  induction ls as [|l ls IH]; intros Hc; [constructor|].
  destruct ls as [|l2 ls].
  - constructor; [exact Hc|constructor].
  - rewrite str_join_cons in Hc by discriminate.
    rewrite !contains_app in Hc.
    apply orb_false_iff in Hc as [Hl Hc].
    apply orb_false_iff in Hc as [_ Hc].
    constructor; [exact Hl|apply IH, Hc].
Qed.

(** Passing over the rest of a separator. *)
Lemma split_from_skip (sep s1 tok rest : string) :
  split_from sep (String.length s1) tok (String.append s1 rest)
  = match rest with
    | EmptyString => [tok]
    | _ => split_from sep O tok rest
    end.
Proof.
  induction s1 as [|c s1 IH].
  - rewrite append_nil_l. cbn [String.length]. destruct rest; reflexivity.
  - rewrite append_cons. cbn [String.length split_from]. exact IH.
Qed.

Lemma split_from_skip_all (sep s1 tok rest : string) :
  split_from sep (String.length s1) tok (String.append s1 rest)
  = split_from sep O tok rest.
Proof. rewrite split_from_skip. destruct rest; reflexivity. Qed.

Lemma prefix_append (s r : string) : String.prefix s (String.append s r) = true.
Proof.
  induction s as [|c s IH]; [apply prefix_nil|].
  rewrite append_cons, prefix_cons. destruct (ascii_dec c c); [exact IH|congruence].
Qed.

(** A separator at the head of the string closes the current token. *)
Lemma split_from_sep (c : ascii) (sep tok rest : string) :
  split_from (String c sep) O tok (String.append (String c sep) rest)
  = tok :: split_from (String c sep) O EmptyString rest.
Proof.
  rewrite append_cons. cbn [split_from].
  rewrite <- append_cons, prefix_append.
  cbn [String.length Nat.pred]. rewrite split_from_skip_all. reflexivity.
Qed.

(** On a text without ['|'], replacing each newline by the marker and
    splitting at the marker is splitting at the newlines. *)
Lemma split_replace_newline (tok s : string) :
  contains "|" s = false ->
  split_from NEWLINE O tok (replace_from newline NEWLINE O s)
  = split_from newline O tok s.
Proof.
  revert tok. induction s as [|a s IH]; intros tok Hc; [reflexivity|].
  cbn [contains] in Hc. apply orb_false_iff in Hc as [Ha Hc].
  rewrite prefix_cons, prefix_nil in Ha.
  unfold newline at 2. cbn [split_from]. rewrite prefix_cons, prefix_nil.
  unfold newline at 1. cbn [replace_from]. rewrite prefix_cons, prefix_nil.
  destruct (ascii_dec "010" a) as [<-|Hnl].
  - cbn [String.length Nat.pred]. unfold NEWLINE at 1 2.
    rewrite split_from_sep. f_equal. apply IH, Hc.
  - cbn [split_from]. unfold NEWLINE at 1. rewrite prefix_cons.
    destruct (ascii_dec "|" a) as [->|_]; [discriminate|].
    apply IH, Hc.
Qed.

End string_facts.

(** ** The greedy line filling of [draw_wrapped_text] *)

(** Every prefix of two or more words of the line passed the width test
    when its last word was added. *)
Definition fits (too_wide : string -> bool) (g : list string) : Prop :=
  forall k, (2 <= k <= length g)%nat ->
    too_wide (str_join " " (take k g)) = false.

(** A line ends only where the first word of the next line would have made
    it too wide. *)
Definition forced_breaks (too_wide : string -> bool)
    (groups : list (list string)) : Prop :=
  forall i g g', groups !! i = Some g -> groups !! S i = Some g' ->
    exists w, head g' = Some w /\
              too_wide (str_join " " (g ++ [w])) = true.

Section wrap_facts.

Variable too_wide : string -> bool.

(** The loop invariant: [lines] are the joined groups of words closed so far
    and [line_words] the group being filled. *)
Lemma wrap_word_inv (words : list string) :
  exists gs cur,
    foldl (wrap_word too_wide) ([], []) words = (str_join " " <$> gs, cur) /\
    concat gs ++ cur = words /\
    Forall (fun g => g <> []) gs /\
    (cur = [] -> gs = [] /\ words = []) /\
    Forall (fits too_wide) gs /\
    fits too_wide cur /\
    forced_breaks too_wide (gs ++ [cur]).
Proof.
  induction words as [|w words IH] using rev_ind.
  - exists [], []. repeat split; try constructor.
    + intros k Hk. simpl in Hk. lia.
    + intros i g g' _ H2. destruct i; discriminate.
  - destruct IH as (gs & cur & Hf & Hcat & Hne & Hcur & Hfit & Hfc & Hbr).
    rewrite foldl_app. cbn [foldl]. rewrite Hf. unfold wrap_word.
    destruct (too_wide (str_join " " (cur ++ [w]))
              && negb (bool_decide (cur = []))) eqn:Hcond.
    + apply andb_true_iff in Hcond as [Hw Hc].
      apply negb_true_iff, bool_decide_eq_false in Hc.
      exists (gs ++ [cur]), [w]. repeat split.
      * rewrite fmap_app. reflexivity.
      * rewrite concat_app. cbn [concat]. rewrite app_nil_r, Hcat. reflexivity.
      * apply Forall_app. split; [exact Hne|]. constructor; [exact Hc|constructor].
      * discriminate.
      * discriminate.
      * apply Forall_app. split; [exact Hfit|]. constructor; [exact Hfc|constructor].
      * intros k Hk. simpl in Hk. lia.
      * intros i g g' H1 H2.
        destruct (decide (S i < length (gs ++ [cur]))%nat) as [Hlt|Hge].
        -- rewrite lookup_app_l in H1 by lia. rewrite lookup_app_l in H2 by lia.
           apply (Hbr i g g' H1 H2).
        -- rewrite lookup_app_r in H2 by lia.
           destruct (S i - length (gs ++ [cur]))%nat as [|n] eqn:Hn;
             [|destruct n; discriminate].
           injection H2 as <-.
           assert (i = length gs) as -> by (rewrite length_app in *; simpl in *; lia).
           rewrite lookup_app_l in H1 by (rewrite length_app; simpl; lia).
           rewrite lookup_app_r in H1 by lia.
           rewrite Nat.sub_diag in H1. injection H1 as <-.
           exists w. split; [reflexivity|exact Hw].
    + apply andb_false_iff in Hcond.
      assert (Hok : too_wide (str_join " " (cur ++ [w])) = false \/ cur = []).
      { destruct Hcond as [Hw|Hc]; [left; exact Hw|right].
        apply negb_false_iff, bool_decide_eq_true in Hc. exact Hc. }
      clear Hcond.
      exists gs, (cur ++ [w]). repeat split.
      * rewrite app_assoc, Hcat. reflexivity.
      * exact Hne.
      * destruct cur; discriminate.
      * destruct cur; discriminate.
      * exact Hfit.
      * intros k Hk. rewrite length_app in Hk. simpl in Hk.
        destruct (decide (k <= length cur)%nat) as [Hle|Hgt].
        -- rewrite take_app_le by exact Hle. apply Hfc. lia.
        -- rewrite take_ge by (rewrite length_app; simpl; lia).
           destruct Hok as [Hw| ->]; [exact Hw|]. simpl in *. lia.
      * intros i g g' H1 H2.
        destruct (decide (S i < length gs)%nat) as [Hlt|Hge].
        -- rewrite lookup_app_l in H1 by lia. rewrite lookup_app_l in H2 by lia.
           apply (Hbr i g g').
           ++ rewrite lookup_app_l by lia. exact H1.
           ++ rewrite lookup_app_l by lia. exact H2.
        -- assert (S i = length gs) as Hi.
           { apply lookup_lt_Some in H2. rewrite length_app in H2.
             simpl in H2. lia. }
           rewrite lookup_app_l in H1 by lia.
           rewrite lookup_app_r in H2 by lia.
           rewrite Hi, Nat.sub_diag in H2. injection H2 as <-.
           destruct (Hbr i g cur) as (w0 & Hh & Hw0).
           ++ rewrite lookup_app_l by lia. exact H1.
           ++ rewrite lookup_app_r by lia. rewrite Hi, Nat.sub_diag. reflexivity.
           ++ exists w0. split; [|exact Hw0].
              destruct cur; [discriminate|exact Hh].
Qed.

(** The lines of a non-empty list of words: the words cut into consecutive
    non-empty groups, each group joined by single spaces. *)
Lemma wrap_words_groups (words : list string) :
  words <> [] ->
  exists groups,
    wrap_words too_wide words = str_join " " <$> groups /\
    concat groups = words /\
    groups <> [] /\
    Forall (fun g => g <> []) groups /\
    Forall (fits too_wide) groups /\
    forced_breaks too_wide groups.
Proof.
  intros Hwords.
  destruct (wrap_word_inv words)
    as (gs & cur & Hf & Hcat & Hne & Hcur & Hfit & Hfc & Hbr).
  assert (Hc : cur <> []).
  { intros Hc. destruct (Hcur Hc) as [_ ?]. contradiction. }
  exists (gs ++ [cur]). unfold wrap_words. rewrite Hf.
  rewrite bool_decide_eq_false_2 by exact Hc.
  repeat split.
  - rewrite fmap_app. reflexivity.
  - rewrite concat_app. cbn [concat]. rewrite app_nil_r. exact Hcat.
  - destruct gs; discriminate.
  - apply Forall_app. split; [exact Hne|]. constructor; [exact Hc|constructor].
  - apply Forall_app. split; [exact Hfit|]. constructor; [exact Hfc|constructor].
  - exact Hbr.
Qed.

Lemma groups_length (groups : list (list string)) :
  Forall (fun g => g <> []) groups ->
  (length groups <= length (concat groups))%nat.
Proof.
  induction 1 as [|g gs Hg _ IH]; [reflexivity|].
  cbn [concat length]. rewrite length_app.
  destruct g; [congruence|]. simpl. lia.
Qed.

(** Groups of one word each: the lines are the words. *)
Lemma groups_singletons (groups : list (list string)) :
  Forall (fun g => length g = 1%nat) groups ->
  str_join " " <$> groups = concat groups.
Proof.
  induction 1 as [|g gs Hg _ IH]; [reflexivity|].
  destruct g as [|w [|w2 g]]; try discriminate.
  cbn [fmap list_fmap concat]. cbn [fmap] in IH. rewrite IH. reflexivity.
Qed.

End wrap_facts.

(** X14.  The wrapping of one paragraph loses nothing: a paragraph always
    gives at least one line and at most one line per word, and joining the
    lines with single spaces gives the paragraph back, character for
    character (runs of spaces and the empty paragraph included).  When no
    line is too wide the paragraph is its only line; when every line is too
    wide each word is a line of its own. *)
Theorem wrap_paragraph_text (too_wide : string -> bool) (para : string) :
  wrap_paragraph too_wide para <> [] /\
  str_join " " (wrap_paragraph too_wide para) = para /\
  (length (wrap_paragraph too_wide para) <= length (str_split " " para))%nat /\
  ((forall line, too_wide line = false) ->
   wrap_paragraph too_wide para = [para]) /\
  ((forall line, too_wide line = true) ->
   wrap_paragraph too_wide para = str_split " " para).
Proof.
  unfold wrap_paragraph.
  destruct (wrap_words_groups too_wide (str_split " " para))
    as (groups & Hlines & Hcat & Hne & Hg & Hfit & Hbr).
  { apply split_from_nonempty. }
  assert (Hjoin : str_join " " (str_join " " <$> groups) = para).
  { rewrite str_join_concat by exact Hg. rewrite Hcat. apply join_split. }
  rewrite Hlines. split; [|split; [|split; [|split]]].
  - destruct groups; [congruence|discriminate].
  - exact Hjoin.
  - rewrite length_fmap, <- Hcat. apply groups_length, Hg.
  - intros Hnone.
    destruct groups as [|g [|g2 groups]]; [congruence| |].
    + cbn [fmap list_fmap] in *. cbn [str_join] in Hjoin. rewrite Hjoin.
      reflexivity.
    + destruct (Hbr O g g2 eq_refl eq_refl) as (w & _ & Hw).
      rewrite Hnone in Hw. discriminate.
  - intros Hall. rewrite groups_singletons; [exact Hcat|].
    eapply Forall_impl; [exact (proj2 (Forall_and _ _) (conj Hg Hfit))|].
    intros g [Hg1 Hg2]. cbv beta in *.
    destruct g as [|w [|w2 g]]; [congruence|reflexivity|].
    specialize (Hg2 2%nat). rewrite Hall in Hg2.
    simpl in Hg2. assert (true = false) by (apply Hg2; lia). discriminate.
Qed.

(** X15.  The wrapping is greedy.  The lines of a paragraph are its words
    ([para.split(' ')]) cut, in order, into non-empty groups joined by
    single spaces; inside a line every prefix of two or more words passed
    the width test, so a line is too wide only if it is a single word; and
    a line ends only where adding the first word of the next line failed
    the width test. *)
Theorem wrap_paragraph_greedy (too_wide : string -> bool) (para : string) :
  exists groups : list (list string),
    wrap_paragraph too_wide para = str_join " " <$> groups /\
    concat groups = str_split " " para /\
    Forall (fun g => g <> []) groups /\
    Forall (fits too_wide) groups /\
    forced_breaks too_wide groups /\
    Forall (fun line => too_wide line = false \/ line ∈ str_split " " para)
      (wrap_paragraph too_wide para).
Proof.
  unfold wrap_paragraph.
  destruct (wrap_words_groups too_wide (str_split " " para))
    as (groups & Hlines & Hcat & Hne & Hg & Hfit & Hbr).
  { apply split_from_nonempty. }
  exists groups. repeat split; try assumption.
  rewrite Hlines, <- Hcat. apply Forall_fmap.
  apply Forall_forall. intros g Hin.
  pose proof (proj1 (Forall_forall _ _) Hfit g Hin) as Hgf.
  unfold compose.
  destruct g as [|w [|w2 g]].
  - left. pose proof (proj1 (Forall_forall _ _) Hg [] Hin). congruence.
  - right. cbn [str_join]. apply list_elem_of_In, in_concat. exists [w].
    split; [apply list_elem_of_In, Hin|left; reflexivity].
  - left. specialize (Hgf (length (w :: w2 :: g))).
    rewrite firstn_all in Hgf. apply Hgf. simpl. lia.
Qed.

(** ** Paragraphs and the list [all_lines] *)

Section all_lines_facts.

Variable too_wide : string -> bool.

Lemma wrap_paragraph_nonempty (para : string) :
  wrap_paragraph too_wide para <> [].
Proof.
  unfold wrap_paragraph.
  destruct (wrap_words_groups too_wide (str_split " " para))
    as (groups & -> & _ & Hne & _); [apply split_from_nonempty|].
  destruct groups; [congruence|discriminate].
Qed.

Lemma wrap_paragraph_join (para : string) :
  str_join " " (wrap_paragraph too_wide para) = para.
Proof.
  unfold wrap_paragraph.
  destruct (wrap_words_groups too_wide (str_split " " para))
    as (groups & -> & Hcat & _ & Hg & _); [apply split_from_nonempty|].
  rewrite str_join_concat by exact Hg. rewrite Hcat. apply join_split.
Qed.

Lemma paragraphs_split (text : string) :
  contains "|" text = false -> paragraphs text = str_split newline text.
Proof. intros Hc. apply split_replace_newline, Hc. Qed.

Lemma foldl_all_lines (acc : list string) (paras : list string) :
  foldl (fun all_lines para =>
           (all_lines ++ wrap_paragraph too_wide para) ++ [MANUAL_NEWLINE])
    acc paras
  = acc ++ concat ((fun para => wrap_paragraph too_wide para ++ [MANUAL_NEWLINE])
                     <$> paras).
Proof.
  revert acc. induction paras as [|p paras IH]; intros acc.
  - cbn [foldl fmap list_fmap concat]. rewrite app_nil_r. reflexivity.
  - cbn [foldl]. rewrite IH. cbn [fmap list_fmap concat].
    rewrite <- !app_assoc. reflexivity.
Qed.

Lemma pop_marker_snoc (ls : list string) :
  pop_marker (ls ++ [MANUAL_NEWLINE]) = ls.
Proof.
  unfold pop_marker. rewrite last_snoc, String.eqb_refl.
  apply removelast_last.
Qed.

(** The marker appended after the last paragraph is always there to be
    popped. *)
Lemma all_lines_snoc (text : string) :
  all_lines too_wide text ++ [MANUAL_NEWLINE]
  = concat ((fun para => wrap_paragraph too_wide para ++ [MANUAL_NEWLINE])
              <$> paragraphs text).
Proof.
  unfold all_lines. rewrite foldl_all_lines, app_nil_l.
  assert (Hne : paragraphs text <> []) by apply split_from_nonempty.
  destruct (paragraphs text) as [|p ps] using rev_ind; [congruence|].
  rewrite fmap_app, concat_app. cbn [fmap list_fmap concat].
  rewrite app_nil_r, app_assoc, pop_marker_snoc. reflexivity.
Qed.

Lemma all_lines_nonempty (text : string) : all_lines too_wide text <> [].
Proof.
  intros Hnil. pose proof (all_lines_snoc text) as Hs. rewrite Hnil in Hs.
  assert (Hne : paragraphs text <> []) by apply split_from_nonempty.
  destruct (paragraphs text) as [|p ps]; [congruence|].
  cbn [fmap list_fmap concat] in Hs.
  pose proof (wrap_paragraph_nonempty p) as Hp.
  destruct (wrap_paragraph too_wide p) as [|l ls]; [congruence|].
  apply (f_equal length) in Hs. simpl in Hs.
  rewrite !length_app in Hs. simpl in Hs. lia.
Qed.

Lemma filter_marker_none (ls : list string) :
  Forall (fun line => line <> MANUAL_NEWLINE) ls ->
  filter (fun line => line = MANUAL_NEWLINE) ls = [].
Proof.
  induction 1 as [|l ls Hl _ IH]; [reflexivity|].
  rewrite filter_cons_False by exact Hl. exact IH.
Qed.

Lemma marker_count (pls : list (list string)) :
  Forall (Forall (fun line => line <> MANUAL_NEWLINE)) pls ->
  length (filter (fun line => line = MANUAL_NEWLINE)
            (concat ((fun ls => ls ++ [MANUAL_NEWLINE]) <$> pls)))
  = length pls.
Proof.
  induction 1 as [|ls pls Hls _ IH]; [reflexivity|].
  cbn [fmap list_fmap concat]. cbn [fmap] in IH.
  rewrite !filter_app, !length_app, IH.
  rewrite filter_marker_none by exact Hls.
  rewrite filter_cons_True by reflexivity. reflexivity.
Qed.

End all_lines_facts.

(** A line width measured in characters, for the examples. *)
Definition too_wide_10 (line : string) : bool :=
  (10 <? String.length line)%nat.

Definition sample_text : string :=
  Eval vm_compute in
    String.append "House of Representatives"
      (String.append newline "2019 - Present").

(** The lines of each paragraph of [text.split('\n')]. *)
Definition paragraph_lines (too_wide : string -> bool) (text : string)
  : list (list string) :=
  wrap_paragraph too_wide <$> str_split newline text.

(** X16.  On a text without the character ['|'], the detour over the
    ["||NEWLINE||"] marker is invisible: [paragraphs] are exactly
    [text.split('\n')], and joining them with newlines gives the text
    back. *)
Theorem paragraphs_newline (text : string) :
  contains "|" text = false ->
  paragraphs text = str_split newline text /\
  str_join newline (paragraphs text) = text.
Proof.
  intros Hc. rewrite paragraphs_split by exact Hc.
  split; [reflexivity|]. apply join_split.
Qed.

Lemma paragraphs_newline_witness :
  paragraphs sample_text = str_split newline sample_text /\
  str_join newline (paragraphs sample_text) = sample_text.
Proof. apply (paragraphs_newline sample_text). reflexivity. Defined.

(** X17.  [all_lines] is never empty and is the lines of the paragraphs in
    order with exactly one ["||MANUAL_NEWLINE||"] entry after each paragraph
    but the last: the closing [pop] always finds the marker appended after
    the last paragraph and removes that one entry only. *)
Theorem all_lines_paragraphs (too_wide : string -> bool) (text : string) :
  all_lines too_wide text <> [] /\
  all_lines too_wide text ++ [MANUAL_NEWLINE]
  = concat ((fun para => wrap_paragraph too_wide para ++ [MANUAL_NEWLINE])
              <$> paragraphs text).
Proof. split; [apply all_lines_nonempty|apply all_lines_snoc]. Qed.

(** X18.  On a text without ['|'] the layout can be read back: no line of
    text equals the marker, the number of marker entries is the number of
    newlines of the text (one less than the number of paragraphs), and
    joining each paragraph's lines with spaces and the paragraphs with
    newlines gives the text back. *)
Theorem all_lines_round_trip (too_wide : string -> bool) (text : string) :
  contains "|" text = false ->
  all_lines too_wide text ++ [MANUAL_NEWLINE]
  = concat ((fun ls => ls ++ [MANUAL_NEWLINE])
              <$> paragraph_lines too_wide text) /\
  Forall (Forall (fun line => line <> MANUAL_NEWLINE))
    (paragraph_lines too_wide text) /\
  (length (filter (fun line => line = MANUAL_NEWLINE)
             (all_lines too_wide text)) + 1
   = length (paragraph_lines too_wide text))%nat /\
  str_join newline (str_join " " <$> paragraph_lines too_wide text) = text.
Proof.
  intros Hc. set (pls := paragraph_lines too_wide text).
  assert (Hall : all_lines too_wide text ++ [MANUAL_NEWLINE]
                 = concat ((fun ls => ls ++ [MANUAL_NEWLINE]) <$> pls)).
  { rewrite all_lines_snoc, paragraphs_split by exact Hc.
    unfold pls, paragraph_lines. rewrite <- list_fmap_compose. reflexivity. }
  assert (Hparas : Forall (fun p => contains "|" p = false)
                     (str_split newline text)).
  { apply (contains_join _ newline). unfold newline.
    rewrite join_split. exact Hc. }
  assert (Hclean : Forall (Forall (fun line => line <> MANUAL_NEWLINE)) pls).
  { unfold pls, paragraph_lines. apply Forall_fmap. eapply Forall_impl; [exact Hparas|].
    intros p Hp. unfold compose.
    assert (Hl : Forall (fun l => contains "|" l = false)
                   (wrap_paragraph too_wide p)).
    { apply (contains_join _ " "). rewrite wrap_paragraph_join. exact Hp. }
    eapply Forall_impl; [exact Hl|]. intros l Hl' ->. discriminate Hl'. }
  split; [exact Hall|]. split; [exact Hclean|]. split.
  - pose proof (marker_count pls Hclean) as Hn. rewrite <- Hall in Hn.
    rewrite filter_app, length_app in Hn.
    rewrite filter_cons_True, filter_nil in Hn by reflexivity. exact Hn.
  - unfold pls, paragraph_lines. rewrite <- list_fmap_compose.
    assert (Hid : forall ps : list string,
              (str_join " " ∘ wrap_paragraph too_wide) <$> ps = ps).
    { induction ps as [|p ps IH]; [reflexivity|].
      cbn [fmap list_fmap]. cbn [fmap] in IH. rewrite IH.
      unfold compose at 1. rewrite wrap_paragraph_join. reflexivity. }
    rewrite Hid. unfold newline. apply join_split.
Qed.

Lemma all_lines_round_trip_witness :
  all_lines too_wide_10 sample_text ++ [MANUAL_NEWLINE]
  = concat ((fun ls => ls ++ [MANUAL_NEWLINE])
              <$> paragraph_lines too_wide_10 sample_text) /\
  Forall (Forall (fun line => line <> MANUAL_NEWLINE))
    (paragraph_lines too_wide_10 sample_text) /\
  (length (filter (fun line => line = MANUAL_NEWLINE)
             (all_lines too_wide_10 sample_text)) + 1
   = length (paragraph_lines too_wide_10 sample_text))%nat /\
  str_join newline (str_join " " <$> paragraph_lines too_wide_10 sample_text)
  = sample_text.
Proof. apply (all_lines_round_trip too_wide_10 sample_text). reflexivity. Defined.

(** ** The two normalizers of [modify_reps.py] side by side

    [mod_json] works on the dictionaries of the JSON file, [update_endyear]
    on the frame read from the same file. *)

(** A dictionary and a row holding the same record, whose [endYear] is
    missing. *)
Definition same_open_record (rep : gmap string pyval) (r : row) : Prop :=
  rep !! "endYear" = None /\ endYear r = None /\
  rep !! "chamber" = Some (PyStr (chamber r)) /\
  rep !! "startYear" = Some (PyInt (startYear r)).

Definition dict_open (ch : string) (start : Z) : gmap string pyval :=
  {[ "chamber" := PyStr ch; "startYear" := PyInt start ]}.

Definition rep_lower_case : row :=
  raw "S000002" "Doe, Jane" "Democratic" "senate" 2021 None.

Section normalizers.


Lemma mod_json_one (rep : gmap string pyval) (c : string) (y : Z) :
  rep !! "endYear" = None ->
  rep !! "chamber" = Some (PyStr c) ->
  rep !! "startYear" = Some (PyInt y) ->
  mod_json [rep] =
  inr [if decide (str_lower c = str_lower "Senate")
       then <["endYear" := PyInt (y + 6)]> rep
       else if decide (str_lower c = str_lower "House of Representatives")
            then <["endYear" := PyInt (y + 2)]> rep
            else rep].
Proof.
  intros He Hc Hy. unfold mod_json. cbn [mapM].
  rewrite (mod_rep_missing rep c y He Hc Hy). reflexivity.
Qed.

End normalizers.



(** X20.  The two normalizers do not recognize the same chambers.
    [mod_json] compares the lower-cased name, [update_endyear] the name as
    spelled: a record with a missing [endYear] whose chamber is "Senate" or
    "House of Representatives" in another capitalisation is filled by
    [mod_json] and makes [update_endyear] raise IntCastingNaNError. *)
Theorem normalizers_chamber_spelling (today : date)
    (rep : gmap string pyval) (r : row) :
  same_open_record rep r ->
  chamber r <> senate -> chamber r <> house ->
  str_lower (chamber r) = str_lower senate \/
  str_lower (chamber r) = str_lower house ->
  mod_json [rep]
  = inr [<["endYear" :=
             PyInt (startYear r
                    + (if decide (str_lower (chamber r) = str_lower senate)
                       then 6 else 2))]> rep] /\
  update_endyear today [r] = inl IntCastingNaNError.
Proof.
  intros (Hre & He & Hrc & Hrs) Hs Hh Hlow. split.
  - rewrite (mod_json_one rep _ _ Hre Hrc Hrs).
    change (str_lower "Senate") with (str_lower senate).
    change (str_lower "House of Representatives") with (str_lower house).
    destruct (decide (str_lower (chamber r) = str_lower senate)) as [|Hns];
      [reflexivity|].
    destruct Hlow as [Hl|Hl]; [contradiction|].
    rewrite decide_True by exact Hl. reflexivity.
  - apply update_endyear_nan. constructor. repeat split; assumption.
Qed.

Lemma normalizers_chamber_spelling_witness :
  mod_json [dict_open "senate" 2021]
  = inr [<["endYear" :=
             PyInt (startYear rep_lower_case
                    + (if decide (str_lower (chamber rep_lower_case)
                                  = str_lower senate)
                       then 6 else 2))]> (dict_open "senate" 2021)] /\
  update_endyear today_2025 [rep_lower_case] = inl IntCastingNaNError.
Proof.
  apply (normalizers_chamber_spelling today_2025 (dict_open "senate" 2021)
           rep_lower_case).
  - repeat split; reflexivity.
  - discriminate.
  - discriminate.
  - left. reflexivity.
Defined.

(** * Voting records ([gen_voting_record_json.py])

    The network is a function [net] from a roll-call number to the reply the
    API gives for it.  What the code distinguishes in a reply is modelled:
    - no JSON at all (connection error, HTTP error status, undecodable
      body): [get_house_vote_members] handles the exception and then
      evaluates [data.get(...)] with [data] unassigned;
    - a JSON document that is not an object;
    - a JSON object, with the value under ['houseRollCallVoteMemberVotes']
      when that value is itself an object ([None] when the key is missing or
      holds anything else, on which [.get] fails alike).
    The ['results'] of a vote are taken to be missing, null, or a list of
    objects, as the API documents them.  The model returns, beside
    [full_voting_record], the list of the roll-call numbers requested. *)

Module GenVotingRecord.

Definition UnboundLocalError : exn := Raise "UnboundLocalError".

Inductive results_field : Type :=
| NoResults
| NullResults
| Results (votes : list (gmap string pyval)).

Record vote_record : Type := mkVote {
  vote_fields : gmap string pyval;
  results : results_field }.

Inductive reply : Type :=
| NoData
| NotObject
| Object (container : option vote_record).

(** [d.get(k)] *)
Definition dict_get (d : gmap string pyval) (k : string) : pyval :=
  default PyNone (d !! k).

(** The value of [get_house_vote_members(vote_number)]: whatever happens
    inside its [try], the function ends in
    [return data.get('houseRollCallVoteMemberVotes')]. *)
Definition get_house_vote_members (net : Z -> reply) (vote_number : Z)
  : result (option vote_record) :=
  match net vote_number with
  | NoData => raise UnboundLocalError
  | NotObject => raise AttributeError
  | Object container => ret container
  end.

(** The rows one vote adds to [full_voting_record]. *)
Definition flatten_vote (vote_record_i : option vote_record)
  : result (list (gmap string pyval)) :=
  match vote_record_i with
  | None => raise AttributeError
  | Some v =>
      let parent_fields : gmap string pyval :=
        {[ "congress" := dict_get (vote_fields v) "congress";
           "identifier" := dict_get (vote_fields v) "identifier";
           "result" := dict_get (vote_fields v) "result";
           "voteQuestion" := dict_get (vote_fields v) "voteQuestion";
           "voteType" := dict_get (vote_fields v) "voteType" ]} in
      match results v with
      | NoResults => ret []
      | NullResults => raise TypeError
      | Results results_list =>
          ret ((fun vote => dict_update parent_fields vote) <$> results_list)
      end
  end.

(** The body of the [try] for roll call [i]. *)
Definition rows_of (net : Z -> reply) (i : Z)
  : result (list (gmap string pyval)) :=
  vote_record_i ← get_house_vote_members net i;
  flatten_vote vote_record_i.

(** [while i < max_records], with both handlers ending in [break].  The
    state is the pair of the numbers requested so far and
    [full_voting_record]. *)
Fixpoint voting_loop (net : Z -> reply) (fuel : nat) (i max_records : Z)
    (requested : list Z) (full_voting_record : list (gmap string pyval))
  : list Z * list (gmap string pyval) :=
  match fuel with
  | O => (requested, full_voting_record)
  | S fuel' =>
      if i <? max_records then
        match rows_of net i with
        | inr rows =>
            voting_loop net fuel' (i + 1) max_records
              (requested ++ [i]) (full_voting_record ++ rows)
        | inl _ => (requested ++ [i], full_voting_record)
        end
      else (requested, full_voting_record)
  end.

(** The loop starts at [i = 1] and [i] grows by one in each round, so
    [max_records - 1] rounds are enough. *)
Definition get_voting_record (net : Z -> reply) (max_records : Z)
  : list Z * list (gmap string pyval) :=
  voting_loop net (Z.to_nat (max_records - 1)) 1 max_records [] [].

End GenVotingRecord.

Import GenVotingRecord.

(** The rows kept for roll call [i]. *)
Definition kept (net : Z -> reply) (i : Z) : list (gmap string pyval) :=
  match rows_of net i with
  | inr rows => rows
  | inl _ => []
  end.

Section voting_loop_facts.

Variable net : Z -> reply.
Variable max_records : Z.

Lemma voting_loop_fuel (fuel : nat) (i : Z) (requested : list Z)
    (full : list (gmap string pyval)) :
  Z.max 0 (max_records - i) <= Z.of_nat fuel ->
  voting_loop net fuel i max_records requested full
  = voting_loop net (Z.to_nat (max_records - i)) i max_records requested full.
Proof.
  revert i requested full.
  induction fuel as [|fuel IH]; intros i requested full Hfuel.
  - replace (Z.to_nat (max_records - i)) with O by lia. reflexivity.
  - cbn [voting_loop]. destruct (i <? max_records) eqn:Hlt.
    + apply Z.ltb_lt in Hlt.
      replace (Z.to_nat (max_records - i))
        with (S (Z.to_nat (max_records - (i + 1)))) by lia.
      cbn [voting_loop]. rewrite (proj2 (Z.ltb_lt _ _) Hlt).
      destruct (rows_of net i) as [e|rows]; [reflexivity|].
      apply IH. lia.
    + apply Z.ltb_ge in Hlt.
      replace (Z.to_nat (max_records - i)) with O by lia. reflexivity.
Qed.

Lemma voting_loop_spec (fuel : nat) (i : Z) (requested : list Z)
    (full : list (gmap string pyval)) :
  Z.max 0 (max_records - i) <= Z.of_nat fuel ->
  exists n,
    0 <= n <= Z.max 0 (max_records - i) /\
    (forall j, i <= j < i + n -> exists rows, rows_of net j = inr rows) /\
    snd (voting_loop net fuel i max_records requested full)
    = full ++ concat (kept net <$> seqZ i n) /\
    (n < max_records - i ->
     (exists e, rows_of net (i + n) = inl e) /\
     fst (voting_loop net fuel i max_records requested full)
     = requested ++ seqZ i (n + 1)) /\
    (n = Z.max 0 (max_records - i) ->
     fst (voting_loop net fuel i max_records requested full)
     = requested ++ seqZ i n).
Proof.
  revert i requested full.
  induction fuel as [|fuel IH]; intros i requested full Hfuel.
  - exists 0. cbn [voting_loop fst snd]. rewrite seqZ_nil by lia.
    cbn [fmap list_fmap concat]. rewrite !app_nil_r.
    repeat split; try lia; intros; try lia; reflexivity.
  - cbn [voting_loop]. destruct (i <? max_records) eqn:Hlt.
    + apply Z.ltb_lt in Hlt. destruct (rows_of net i) as [e|rows] eqn:Hrows.
      * exists 0. cbn [fst snd]. rewrite seqZ_nil by lia.
        cbn [fmap list_fmap concat]. rewrite app_nil_r.
        split; [lia|]. split; [intros; lia|]. split; [reflexivity|].
        split; [|intros; lia]. intros _. rewrite Z.add_0_r.
        split; [exists e; exact Hrows|].
        rewrite seqZ_cons by lia. rewrite seqZ_nil by lia. reflexivity.
      * destruct (IH (i + 1) (requested ++ [i]) (full ++ rows)) as
          (n & Hn & Hok & Hsnd & Hstop & Hend); [lia|].
        exists (n + 1). split; [lia|]. split; [|split; [|split]].
        -- intros j Hj. destruct (decide (j = i)) as [->|Hne];
             [exists rows; exact Hrows|]. apply Hok. lia.
        -- rewrite Hsnd. rewrite (seqZ_cons i (n + 1)) by lia.
           replace (Z.succ i) with (i + 1) by lia.
           replace (Z.pred (n + 1)) with n by lia.
           cbn [fmap list_fmap concat]. unfold kept at 2. rewrite Hrows.
           rewrite <- app_assoc. reflexivity.
        -- intros Hlt'. destruct Hstop as [He Hfst]; [lia|].
           replace (i + (n + 1)) with (i + 1 + n) by lia.
           split; [exact He|]. rewrite Hfst.
           rewrite (seqZ_cons i (n + 1 + 1)) by lia.
           replace (Z.succ i) with (i + 1) by lia.
           replace (Z.pred (n + 1 + 1)) with (n + 1) by lia.
           rewrite <- app_assoc. reflexivity.
        -- intros Heq. rewrite Hend by lia.
           rewrite (seqZ_cons i (n + 1)) by lia.
           replace (Z.succ i) with (i + 1) by lia.
           replace (Z.pred (n + 1)) with n by lia.
           rewrite <- app_assoc. reflexivity.
    + apply Z.ltb_ge in Hlt.
      exists 0. cbn [fst snd]. rewrite seqZ_nil by lia.
      cbn [fmap list_fmap concat]. rewrite !app_nil_r.
      repeat split; try lia; intros; try lia; reflexivity.
Qed.

End voting_loop_facts.

(** X21.  [get_voting_record] raises nothing and ends after at most
    [max_records - 1] rounds (more fuel changes nothing).  It requests the
    roll calls 1, 2, ... in this order and never the one numbered
    [max_records]; with [n] the number of votes kept, every roll call up to
    [n] gave rows, and the list returned is these rows in order.  It stops
    before [max_records - 1] only at a roll call that fails, which is then
    the last one requested and adds nothing; with [max_records <= 1] nothing
    is requested. *)
Theorem get_voting_record_stops (net : Z -> reply) (max_records : Z) :
  (forall fuel, (Z.to_nat (max_records - 1) <= fuel)%nat ->
     voting_loop net fuel 1 max_records [] []
     = get_voting_record net max_records) /\
  Forall (fun i => 1 <= i < max_records)
    (fst (get_voting_record net max_records)) /\
  exists n,
    0 <= n <= Z.max 0 (max_records - 1) /\
    (forall j, 1 <= j <= n -> exists rows, rows_of net j = inr rows) /\
    snd (get_voting_record net max_records) = concat (kept net <$> seqZ 1 n) /\
    (n < max_records - 1 ->
     (exists e, rows_of net (1 + n) = inl e) /\
     fst (get_voting_record net max_records) = seqZ 1 (n + 1)) /\
    (n = Z.max 0 (max_records - 1) ->
     fst (get_voting_record net max_records) = seqZ 1 n).
Proof.
  split.
  { intros fuel Hfuel. unfold get_voting_record.
    apply voting_loop_fuel. lia. }
  unfold get_voting_record.
  destruct (voting_loop_spec net max_records (Z.to_nat (max_records - 1)) 1 [] [])
    as (n & Hn & Hok & Hsnd & Hstop & Hend); [lia|].
  split.
  - destruct (decide (n < max_records - 1)) as [Hlt|Hge].
    + destruct (Hstop Hlt) as [_ ->]. cbn [app].
      apply Forall_seqZ. intros; lia.
    + rewrite Hend by lia. cbn [app]. apply Forall_seqZ. intros; lia.
  - exists n. split; [exact Hn|]. split; [|split; [|split]].
    + intros j Hj. apply Hok. lia.
    + rewrite Hsnd. reflexivity.
    + intros Hlt. destruct (Hstop Hlt) as [He Hfst].
      split; [exact He|]. rewrite Hfst. reflexivity.
    + intros Heq. rewrite Hend by exact Heq. reflexivity.
Qed.

